(** * Netease playlist link extractor and downloader: a shallow embedding

    The development follows the two Python programs of the repository:
    - [music_downloader.py] (class [NeteaseMusicDownloader]): playlist
      identifier extraction, metadata fetching, signed link resolution and
      the text manifest [list.txt];
    - [download_songs.py] (class [SongDownloader]): manifest parsing,
      file-name sanitising, the retrying download of one record and the
      interactive entry point.

    Python strings are sequences of Unicode code points; they are modelled
    as [list N].  Dictionaries whose keys may be absent are [gmap]s.
    Network answers, clock readings and the file system are explicit
    arguments, and what the code does to the outside world is recorded in
    an event trace. *)

From Stdlib Require Import ZArith NArith List Bool Lia String Ascii.
From Stdlib Require Import DecimalPos DecimalN.
From stdpp Require Import base option list strings gmap.
Import ListNotations.

Local Open Scope Z_scope.

(** ** Python strings *)

Module PyStr.

(** A Python [str]: its code points. *)
Abbreviation str := (list N).

Definition str_eqb (a b : str) : bool := bool_decide (a = b).

(** Source literals are written as UTF-8 text; [u] decodes them to code
points (well-formed input only, which is all a literal can be). *)
Fixpoint utf8_decode (bs : list N) : str :=
match bs with
| [] => []
| b :: r =>
if (b <? 128)%N then b :: utf8_decode r
else if (b <? 224)%N then
match r with
| b1 :: r1 => ((b - 192) * 64 + (b1 - 128))%N :: utf8_decode r1
| [] => []
end
else if (b <? 240)%N then
match r with
| b1 :: b2 :: r2 =>
((b - 224) * 4096 + (b1 - 128) * 64 + (b2 - 128))%N
:: utf8_decode r2
| _ => []
end
else
match r with
| b1 :: b2 :: b3 :: r3 =>
((b - 240) * 262144 + (b1 - 128) * 4096
+ (b2 - 128) * 64 + (b3 - 128))%N :: utf8_decode r3
| _ => []
end
end.

Definition u (s : string) : str :=
utf8_decode (map (fun b => N_of_ascii (ascii_of_byte b))
(list_byte_of_string s)).

(** Code points used one at a time. *)
Definition NL : N := 10.
Definition SP : N := 32.
Definition DQUOTE : N := 34.
Definition HASH : N := 35.
Definition PERCENT : N := 37.
Definition AMP : N := 38.
Definition STAR : N := 42.
Definition PLUS : N := 43.
Definition MINUS : N := 45.
Definition DOT : N := 46.
Definition SLASH : N := 47.
Definition COLON : N := 58.
Definition SEMI : N := 59.
Definition LT : N := 60.
Definition EQUALS : N := 61.
Definition GT : N := 62.
Definition QUESTION : N := 63.
Definition LBRACKET : N := 91.
Definition BACKSLASH : N := 92.
Definition RBRACKET : N := 93.
Definition UNDERSCORE : N := 95.
Definition PIPE : N := 124.

(** [str.isspace] for one code point, which is also what [\s] matches in
a [str] pattern and what [str.strip()] removes. *)
Definition isspace (c : N) : bool :=
((9 <=? c) && (c <=? 13) || (28 <=? c) && (c <=? 32)
|| (c =? 133) || (c =? 160) || (c =? 5760)
|| (8192 <=? c) && (c <=? 8202)
|| (c =? 8232) || (c =? 8233) || (c =? 8239) || (c =? 8287)
|| (c =? 12288))%N.

(** ASCII decimal digits.  Code points beyond ASCII that the
interpreter's Unicode tables class as decimal digits are outside
this model. *)
Definition isdigit (c : N) : bool := ((48 <=? c) && (c <=? 57))%N.

Fixpoint lstrip (s : str) : str :=
match s with
| c :: r => if isspace c then lstrip r else s
| [] => []
end.

(** Removes trailing white space. *)
Fixpoint rstrip (s : str) : str :=
match s with
| [] => []
| c :: r =>
match rstrip r with
| [] => if isspace c then [] else [c]
| r' => c :: r'
end
end.

(** [s.strip()] *)
Definition strip (s : str) : str := rstrip (lstrip s).

(** [s.startswith(p)] *)
Fixpoint startswith (p s : str) : bool :=
match p, s with
| [], _ => true
| a :: p', b :: s' => (a =? b)%N && startswith p' s'
| _ :: _, [] => false
end.

(** [p in s] *)
Fixpoint contains (p s : str) : bool :=
startswith p s || match s with [] => false | _ :: r => contains p r end.

(** [c in s] for a single code point. *)
Definition has (c : N) (s : str) : bool := existsb (N.eqb c) s.

(** [s.split(c)] for a one-character separator: always at least one
part. *)
Fixpoint split (c : N) (s : str) : list str :=
match s with
| [] => [[]]
| a :: r =>
if (a =? c)%N then [] :: split c r
else match split c r with
| p :: ps => (a :: p) :: ps
| [] => [[a]]
end
end.

(** [s.split(c, 1)] when [c in s]: the text before and after the first
occurrence; [None] when [c] does not occur. *)
Fixpoint split1 (c : N) (s : str) : option (str * str) :=
match s with
| [] => None
| a :: r =>
if (a =? c)%N then Some ([], r)
else match split1 c r with
| Some (x, y) => Some (a :: x, y)
| None => None
end
end.

(** [sep.join(parts)] *)
Fixpoint join (sep : str) (parts : list str) : str :=
match parts with
| [] => []
| [p] => p
| p :: ps => p ++ sep ++ join sep ps
end.

(** [c * n] *)
Definition times (c : N) (n : nat) : str := repeat c n.

(** Decimal digits of a natural number. *)
Fixpoint uint_digits (d : Decimal.uint) : str :=
match d with
| Decimal.Nil => []
| Decimal.D0 r => 48%N :: uint_digits r
| Decimal.D1 r => 49%N :: uint_digits r
| Decimal.D2 r => 50%N :: uint_digits r
| Decimal.D3 r => 51%N :: uint_digits r
| Decimal.D4 r => 52%N :: uint_digits r
| Decimal.D5 r => 53%N :: uint_digits r
| Decimal.D6 r => 54%N :: uint_digits r
| Decimal.D7 r => 55%N :: uint_digits r
| Decimal.D8 r => 56%N :: uint_digits r
| Decimal.D9 r => 57%N :: uint_digits r
end.

Definition N_str (n : N) : str := uint_digits (N.to_uint n).

(** [str(z)] for an [int]. *)
Definition Z_str (z : Z) : str :=
if z <? 0 then MINUS :: N_str (Z.abs_N z) else N_str (Z.abs_N z).

(** [f"{z:03d}"]: sign first, then zeros up to a total width of 3. *)
Definition fmt_03d (z : Z) : str :=
let ds := N_str (Z.abs_N z) in
if z <? 0 then MINUS :: times 48%N (2 - length ds) ++ ds
else times 48%N (3 - length ds) ++ ds.

(** Value of a run of ASCII digits, most significant first. *)
Definition digits_value (s : str) : Z :=
fold_left (fun acc c => acc * 10 + (Z.of_N c - 48)) s 0.

End PyStr.
Import PyStr.


(** ** What the programs do to the outside world *)

Module IO.

(** Observable actions, in the order they happen.  Console output is
left out. *)
Inductive event :=
| ERequest (target : str)       (* one HTTP request sent *)
| ESleep (milliseconds : Z)     (* [time.sleep] with a fixed delay *)
| ESleepRandom                  (* [time.sleep(random.uniform(1.0, 3.0))] *)
| EWrite (path : str)           (* a file opened for writing *)
| EPool (max_workers : Z).      (* a worker pool of that size created *)

Definition is_request (e : event) : bool :=
match e with
| ERequest _ => true
| _ => false
end.


(** Number of HTTP requests in a trace. *)
Definition requests (t : list event) : nat :=
length (List.filter is_request t).

End IO.

(** ** The parts of [urllib.parse] the extractor calls *)

Module Urllib.
Section Parse.

(** [urlsplit]'s checks of the network location that raise
[ValueError] (unbalanced or malformed bracketed host, characters
that normalise to delimiters): [true] when they pass. *)
Variable netloc_valid : str -> bool.

(** [unquote] for a text that holds a percent sign. *)
Variable unquote_escaped : str -> str.

Record ParseResult := mkParseResult {
scheme : str;
netloc : str;
path : str;
params : str;
query : str;
fragment : str
}.

Definition is_ascii_alpha (c : N) : bool :=
((65 <=? c) && (c <=? 90) || (97 <=? c) && (c <=? 122))%N.

(** Membership in [scheme_chars]: letters, digits and [+-.]. *)
Definition is_scheme_char (c : N) : bool :=
is_ascii_alpha c || isdigit c
|| (c =? PLUS)%N || (c =? MINUS)%N || (c =? DOT)%N.

Definition lower (c : N) : N :=
if ((65 <=? c) && (c <=? 90))%N then (c + 32)%N else c.

(** Leading C0 control characters and spaces are dropped. *)
Fixpoint lstrip_c0 (s : str) : str :=
match s with
| c :: r => if (c <=? 32)%N then lstrip_c0 r else s
| [] => []
end.

(** Tab, carriage return and line feed are removed everywhere. *)
Definition remove_unsafe (s : str) : str :=
filter (fun c => negb ((c =? 9) || (c =? 13) || (c =? 10))%N = true) s.

(** The scheme, when the text before the first colon is a non-empty
run of scheme characters starting with an ASCII letter. *)
Definition split_scheme (url : str) : str * str :=
match split1 COLON url with
| Some (c :: pre, rest) =>
if is_ascii_alpha c && forallb is_scheme_char (c :: pre)
then (map lower (c :: pre), rest)
else ([], url)
| _ => ([], url)
end.

(** [_splitnetloc(url, 2)] applied after the two leading slashes:
the network location ends at the first of [/], [?] and [#]. *)
Fixpoint splitnetloc (s : str) : str * str :=
match s with
| [] => ([], [])
| c :: r =>
if ((c =? SLASH) || (c =? QUESTION) || (c =? HASH))%N then ([], s)
else let '(n, rest) := splitnetloc r in (c :: n, rest)
end.

(** [urlsplit(url)]; [None] stands for the [ValueError] it raises. *)
Definition urlsplit (url0 : str) : option ParseResult :=
let url := remove_unsafe (lstrip_c0 url0) in
let '(sch, url) := split_scheme url in
let '(loc, url) :=
match url with
| a :: b :: r =>
if ((a =? SLASH) && (b =? SLASH))%N then splitnetloc r
else ([], url)
| _ => ([], url)
end in
if negb (netloc_valid loc) then None
else
let '(url, frag) :=
match split1 HASH url with
| Some (a, b) => (a, b)
| None => (url, [])
end in
let '(url, q) :=
match split1 QUESTION url with
| Some (a, b) => (a, b)
| None => (url, [])
end in
Some (mkParseResult sch loc url [] q frag).

(** Schemes of [uses_params]. *)
Definition uses_params : list str :=
[u ""; u "ftp"; u "hdl"; u "prospero"; u "http"; u "imap"; u "https";
u "shttp"; u "rtsp"; u "rtspu"; u "sip"; u "sips"; u "mms"; u "sftp";
u "tel"].

(** [_splitparams]: the parameters follow the first semicolon of the
last path segment. *)
Fixpoint splitparams (url : str) : str * str :=
match url with
| [] => ([], [])
| c :: r =>
if has SLASH r then
let '(p, ps) := splitparams r in (c :: p, ps)
else if (c =? SLASH)%N then
match split1 SEMI r with
| Some (a, b) => (c :: a, b)
| None => (url, [])
end
else
match split1 SEMI url with
| Some (a, b) => (a, b)
| None => (url, [])
end
end.

(** [urlparse(url)] *)
Definition urlparse (url : str) : option ParseResult :=
match urlsplit url with
| None => None
| Some r =>
if existsb (str_eqb (scheme r)) uses_params && has SEMI (path r)
then let '(p, ps) := splitparams (path r) in
Some (mkParseResult (scheme r) (netloc r) p ps
(query r) (fragment r))
else Some r
end.

(** [unquote(s)] *)
Definition unquote (s : str) : str :=
if has PERCENT s then unquote_escaped s else s.

Definition plus_to_space (s : str) : str :=
map (fun c => if (c =? PLUS)%N then SP else c) s.

(** [parse_qsl(qs)]: the name and value pairs, in order; fields with
an empty value are left out. *)
Definition parse_qsl (qs : str) : list (str * str) :=
flat_map
(fun name_value =>
match name_value with
| [] => []
| _ =>
let '(name, value) :=
match split1 EQUALS name_value with
| Some (a, b) => (a, b)
| None => (name_value, [])
end in
match value with
| [] => []
| _ => [(unquote (plus_to_space name),
unquote (plus_to_space value))]
end
end)
(split AMP qs).

(** [parse_qs(qs)[key]]: the values of [key] in order, [None] when
the key is absent. *)
Definition parse_qs_get (key qs : str) : option (list str) :=
match map snd (filter (fun nv => str_eqb (fst nv) key = true)
(parse_qsl qs)) with
| [] => None
| vs => Some vs
end.

End Parse.
End Urllib.

(** ** [music_downloader.py]: the playlist resolver *)

Module Resolver.
Section Extract.
Variable netloc_valid : str -> bool.
Variable unquote_escaped : str -> str.

(** The loop over [enumerate(path_parts)]: the part after the first
['playlist'] part that has a successor. *)
Fixpoint part_after_playlist (parts : list str) : option str :=
match parts with
| p :: rest =>
match rest with
| nxt :: _ =>
if str_eqb p (u "playlist") then Some nxt
else part_after_playlist rest
| [] => None
end
| [] => None
end.

(** [extract_playlist_id(playlist_url)]: the identifier, or [None]
both where the function returns [None] after an exception and
where it ends without a [return]. *)
Definition extract_playlist_id (playlist_url : str) : option str :=
if contains (u "playlist") playlist_url then
match Urllib.urlparse netloc_valid playlist_url with
| None => None
| Some parsed =>
match Urllib.query parsed with
| _ :: _ =>
match Urllib.parse_qs_get unquote_escaped (u "id")
(Urllib.query parsed) with
| Some (v :: _) => Some v
| _ => None
end
| [] => part_after_playlist (split SLASH (Urllib.path parsed))
end
end
else Some playlist_url.

End Extract.
End Resolver.

(** ** [music_downloader.py]: the manifest writer *)

Module Manifest.

(** The [song_info] dictionary that [process_playlist] passes to
[append_song_to_file].  [song_id] is read with [song.get], so the
key may be absent ([None]). *)
Record TrackRecord := mkTrack {
name : str;
artist : str;
url : str;
quality : str;
bitrate : Z;
size : Z;
type : str;
song_id : option Z
}.

(** The file [list.txt]: absent, or its text. *)
Definition file : Type := option str.

Definition separator : str := times EQUALS 50.

(** [init_file(playlist_name, quality_level)]; [now] is what
[time.strftime] returns.  Mode ['w'] replaces the file. *)
Definition header (playlist_name quality_level now : str) : str :=
u "# 歌单: " ++ playlist_name ++ [NL]
++ u "# 音质: " ++ quality_level ++ [NL]
++ u "# 生成时间: " ++ now ++ [NL]
++ separator ++ [NL; NL].

Definition init_file (playlist_name quality_level now : str)
(f : file) : file :=
Some (header playlist_name quality_level now).

(** The block written for one song. *)
Definition block (song : TrackRecord) (index : Z) : str :=
Z_str index ++ u ". " ++ name song ++ u " - " ++ artist song ++ [NL]
++ u "   歌曲ID: "
++ match song_id song with Some i => Z_str i | None => u "未知" end
++ [NL]
++ u "   音质: " ++ quality song ++ u " (" ++ Z_str (bitrate song)
++ u "kbps)" ++ [NL]
++ u "   直链: " ++ url song ++ [NL]
++ u "   大小: " ++ Z_str (size song) ++ u " bytes" ++ [NL]
++ u "   类型: " ++ type song ++ [NL]
++ u "   下载说明: 此直链需要添加Referer请求头才能正常访问" ++ [NL]
++ u "   推荐下载工具: IDM、Aria2、curl等支持自定义请求头的工具" ++ [NL]
++ u "   必要请求头: Referer: https://music.163.com/" ++ [NL]
++ u "   User-Agent: Mozilla/5.0 (Windows NT 10.0; Win64; x64) AppleWebKit/537.36"
++ [NL]
++ [NL].

(** [append_song_to_file(song, index)]: mode ['a'] creates the file
when it is absent. *)
Definition append_song_to_file (song : TrackRecord) (index : Z)
(f : file) : file :=
Some (default [] f ++ block song index).

(** [f.readlines()]: every line keeps its line feed; the last one may
lack it. *)
Fixpoint readlines (s : str) : list str :=
match s with
| [] => []
| c :: r =>
if (c =? NL)%N then [c] :: readlines r
else match readlines r with
| l :: ls => (c :: l) :: ls
| [] => [[c]]
end
end.

(** The first loop of [update_file_summary]: two past the index of the
first line that starts with the separator, 0 when there is none. *)
Fixpoint header_end_from (i : nat) (lines : list str) : nat :=
match lines with
| [] => 0%nat
| l :: ls => if startswith separator l then (i + 2)%nat
else header_end_from (S i) ls
end.

Definition header_end (lines : list str) : nat := header_end_from 0 lines.

Definition footer (total_count : Z) (now : str) : str :=
[NL] ++ separator ++ [NL]
++ u "# 统计信息" ++ [NL]
++ u "# 成功获取直链的歌曲: " ++ Z_str total_count ++ u " 首" ++ [NL]
++ u "# 完成时间: " ++ now ++ [NL].

(** [update_file_summary(total_count)].  Reading an absent file raises,
which the function reports and nothing is written.  Otherwise the
file is reopened in mode ['w'] and lines [0 .. header_end-1] are
written one by one: when [header_end] exceeds the number of lines,
[lines[i]] raises after every line has been written, and the
function ends there without the summary. *)
Definition update_file_summary (total_count : Z) (now : str)
(f : file) : file :=
match f with
| None => None
| Some content =>
let lines := readlines content in
let he := header_end lines in
if (length lines <? he)%nat then Some (concat lines)
else Some (concat (firstn he lines) ++ concat (skipn he lines)
++ footer total_count now)
end.


End Manifest.

(** ** The fragment of [re] that the manifest pattern uses *)

Module Regex.

(** A pattern is a sequence of items: literal text, or a repeated
character class, greedy or lazy, inside a capturing group or
not. *)
Inductive item :=
| Lit (s : str)
| Rep (capture greedy : bool) (least : nat) (cls : N -> bool).

Definition pattern : Type := list item.

(** [\d], [\s] and [.] (anything but a line feed). *)
Definition cls_digit : N -> bool := isdigit.
Definition cls_space : N -> bool := isspace.
Definition cls_dot (c : N) : bool := negb (c =? NL)%N.

Fixpoint strip_prefix (p s : str) : option str :=
match p, s with
| [], _ => Some s
| a :: p', b :: s' => if (a =? b)%N then strip_prefix p' s' else None
| _ :: _, [] => None
end.

Section Repeat.
Context {A : Type}.
Variable cls : N -> bool.
(** What follows the repetition, given the text it took and the
text left. *)
Variable k : str -> str -> option A.

(** Greedy: take as much as possible, give back one character at a
time while the rest of the pattern fails. *)
Fixpoint rep_greedy (taken s : str) : option A :=
match s with
| c :: r =>
if cls c then
match rep_greedy (taken ++ [c]) r with
| Some x => Some x
| None => k taken s
end
else k taken s
| [] => k taken s
end.

(** Lazy: try the rest of the pattern first, take one more character
each time it fails. *)
Fixpoint rep_lazy (taken s : str) : option A :=
match k taken s with
| Some x => Some x
| None =>
match s with
| c :: r => if cls c then rep_lazy (taken ++ [c]) r else None
| [] => None
end
end.
End Repeat.

(** Backtracking match of a pattern at the start of [s]: the captured
groups in order and the text after the match. *)
Fixpoint match_here (p : pattern) (s : str) : option (list str * str) :=
match p with
| [] => Some ([], s)
| Lit l :: p' =>
match strip_prefix l s with
| Some r => match_here p' r
| None => None
end
| Rep capture greedy least cls :: p' =>
let k taken rest :=
if (least <=? length taken)%nat then
match match_here p' rest with
| Some (groups, r) =>
Some (if capture then taken :: groups else groups, r)
| None => None
end
else None in
if greedy then rep_greedy cls k [] s else rep_lazy cls k [] s
end.

(** [re.findall]: scan from the left; after a match the scan resumes
where the match ended ([skip] counts the characters of the match
still to pass).  The patterns used here match no empty text. *)
Fixpoint findall_from (p : pattern) (skip : nat) (s : str)
: list (list str) :=
match skip with
| S n => match s with
| _ :: r => findall_from p n r
| [] => []
end
| O =>
match match_here p s with
| Some (groups, rest) =>
groups :: match s with
| _ :: r =>
findall_from p (length s - length rest - 1) r
| [] => []
end
| None => match s with
| _ :: r => findall_from p 0 r
| [] => []
end
end
end.

Definition findall (p : pattern) (s : str) : list (list str) :=
findall_from p 0 s.


End Regex.

(** ** [download_songs.py] *)

Module Downloader.

(** Values stored in a song dictionary. *)
Inductive pyval :=
| VInt (z : Z)
| VStr (s : str).

(** A song: a dictionary from field names to values. *)
Abbreviation song := (gmap string pyval).

(** Exceptions that the code catches with [except Exception]. *)
Inductive exn :=
| KeyError (key : string)
| ValueError
| TypeError
| OSError
| RequestException.

Inductive result (A : Type) :=
| Ok (a : A)
| Raise (e : exn).
Arguments Ok {A} a.
Arguments Raise {A} e.

#[global] Instance result_ret : MRet result := fun A a => Ok a.
#[global] Instance result_bind : MBind result := fun A B f r =>
match r with
| Ok a => f a
| Raise e => Raise e
end.

(** [song[key]] *)
Definition getitem (s : song) (key : string) : result pyval :=
match s !! key with
| Some v => Ok v
| None => Raise (KeyError key)
end.

(** [f"{v}"] *)
Definition to_str (v : pyval) : str :=
match v with
| VInt z => Z_str z
| VStr s => s
end.

(** [f"{v:03d}"]: only an [int] accepts the format. *)
Definition format_03d (v : pyval) : result str :=
match v with
| VInt z => Ok (fmt_03d z)
| VStr _ => Raise ValueError
end.

(** [int(s)] for a text: white space around, an optional sign, then
ASCII digits, single underscores allowed between digits; the
interpreter refuses more than 4300 digits.  [None] stands for
[ValueError]. *)
Definition py_int (s : str) : option Z :=
let s := strip s in
let '(neg, body) :=
match s with
| c :: r => if (c =? MINUS)%N then (true, r)
else if (c =? PLUS)%N then (false, r)
else (false, s)
| [] => (false, [])
end in
let groups := split UNDERSCORE body in
if forallb (fun g => negb (length g =? 0)%nat && forallb isdigit g) groups
&& (length (concat groups) <=? 4300)%nat
then Some (if neg then - digits_value (concat groups)
else digits_value (concat groups))
else None.

Definition int_of_str (s : str) : result Z :=
match py_int s with
| Some z => Ok z
| None => Raise ValueError
end.

(** [int(v)] *)
Definition int_of (v : pyval) : result Z :=
match v with
| VInt z => Ok z
| VStr s => int_of_str s
end.

(** *** [parse_list_file] *)

Import Regex.

Definition ws : item := Rep false true 0 cls_space.
Definition digits : item := Rep true true 1 cls_digit.
Definition lazy_text : item := Rep true false 1 cls_dot.

(** The pattern of [parse_list_file], item by item. *)
Definition list_pattern : pattern :=
[ digits; Lit [DOT]; ws; lazy_text; ws; Lit [MINUS]; ws; lazy_text;
ws; Lit [NL]; ws; Lit (u "歌曲ID:"); ws; digits;
ws; Lit [NL]; ws; Lit (u "音质:"); ws; lazy_text; ws; Lit (u "(");
digits; Lit (u "kbps)");
ws; Lit [NL]; ws; Lit (u "直链:"); ws; lazy_text;
ws; Lit [NL]; ws; Lit (u "大小:"); ws; digits; ws; Lit (u "bytes");
ws; Lit [NL]; ws; Lit (u "类型:"); ws; lazy_text; ws; Lit [NL] ].

(** The dictionary built from one match. *)
Definition song_of_match (m : list str) : result song :=
match m with
| [m0; m1; m2; m3; m4; m5; m6; m7; m8] =>
index ← int_of_str m0;
bitrate ← int_of_str m5;
size ← int_of_str m7;
Ok (<["index" := VInt index]>
(<["name" := VStr (strip m1)]>
(<["artist" := VStr (strip m2)]>
(<["song_id" := VStr m3]>
(<["quality" := VStr (strip m4)]>
(<["bitrate" := VInt bitrate]>
(<["url" := VStr (strip m6)]>
(<["size" := VInt size]>
(<["type" := VStr (strip m8)]> (∅ : song))))))))))
| _ => Raise TypeError
end.

Fixpoint songs_of_matches (ms : list (list str)) : result (list song) :=
match ms with
| [] => Ok []
| m :: rest =>
s ← song_of_match m;
ss ← songs_of_matches rest;
Ok (s :: ss)
end.

(** [parse_list_file(filename)] on the file's content: any exception
(an absent file, a number [int] refuses) gives the empty list. *)
Definition parse_list_file (f : Manifest.file) : list song :=
match f with
| None => []
| Some content =>
match songs_of_matches (findall list_pattern content) with
| Ok songs => songs
| Raise _ => []
end
end.

(** *** [sanitize_filename] *)

(** Membership in [illegal_chars]: less-than, greater-than, colon,
double quote, slash, backslash, bar, question mark, asterisk. *)
Definition is_illegal (c : N) : bool :=
((c =? LT) || (c =? GT) || (c =? COLON) || (c =? DQUOTE)
|| (c =? SLASH) || (c =? BACKSLASH) || (c =? PIPE)
|| (c =? QUESTION) || (c =? STAR))%N.

(** [re.sub(illegal_chars, '_', filename)] *)
Definition replace_illegal (filename : str) : str :=
map (fun c => if is_illegal c then UNDERSCORE else c) filename.

Definition sanitize_filename (filename : str) : str :=
let filename := replace_illegal filename in
if (200 <? length filename)%nat then firstn 200 filename else filename.

(** *** [download_song] *)

Import IO.

(** The answer to [session.get(url, stream=True)]: the call raises, or
a response arrives with a status code, possibly a [content-length]
header, and a body delivered in chunks that may break off with an
exception after the listed chunks. *)
Inductive response :=
| GetRaises
| Response (status_code : Z) (content_length : option str)
(chunks : list (list N)) (stream_raises : bool).

(** The download directory (path to content) and the trace so far. *)
Record world := mkWorld {
files : gmap str (list N);
trace : list event
}.

Definition log (e : event) (w : world) : world :=
mkWorld (files w) (trace w ++ [e]).

Definition write_file (path : str) (content : list N) (w : world) : world :=
mkWorld (<[path := content]> (files w)) (trace w ++ [EWrite path]).

(** The f-string of the file name, then [sanitize_filename]. *)
Definition target_filename (s : song) : result str :=
index ← getitem s "index";
index03 ← format_03d index;
name ← getitem s "name";
artist ← getitem s "artist";
type ← getitem s "type";
Ok (sanitize_filename
(index03 ++ u ". " ++ to_str name ++ u " - " ++ to_str artist
++ u "." ++ to_str type)).

(** [os.path.join(self.download_dir, filename)] with the POSIX
separator; a sanitised name never starts with a slash. *)
Definition target_path (filename : str) : str := u "downloads/" ++ filename.

(** [file_size - song['size']] *)
Definition size_difference (file_size : Z) (v : pyval) : result Z :=
match v with
| VInt z => Ok (file_size - z)
| VStr _ => Raise TypeError
end.

Section OneSong.
(** [net i] answers the request of attempt [i]; [writable p] tells
whether [open(p, 'wb')] succeeds. *)
Variable net : nat -> response.
Variable writable : str -> bool.
Variable s : song.
Variable max_retries : Z.

(** The body of the inner [try] for one attempt: [true] when the
function returns [True] from it, [false] when the attempt failed
(a status other than 200 and 206, or an exception caught by the
inner handler). *)
Definition try_once (filepath : str) (attempt : nat) (w : world)
: bool * world :=
match s !! "url" with
| None => (false, w)
| Some (VInt _) => (false, w)
| Some (VStr url) =>
let w := log (ERequest url) w in
match net attempt with
| GetRaises => (false, w)
| Response status_code content_length chunks stream_raises =>
if (status_code =? 200) || (status_code =? 206) then
match (size ← getitem s "size";
int_of (match content_length with
| Some h => VStr h
| None => size
end)) with
| Raise _ => (false, w)
| Ok total_size =>
if writable filepath then
(negb stream_raises,
write_file filepath (concat chunks) w)
else (false, w)
end
else (false, w)
end
end.

(** [for attempt in range(max_retries)], with [n] iterations left. *)
Fixpoint attempts (filepath : str) (n attempt : nat) (w : world)
: bool * world :=
match n with
| O => (false, w)
| S n' =>
let '(done, w) := try_once filepath attempt w in
if done then (true, w)
else if Z.of_nat attempt <? max_retries - 1
then attempts filepath n' (S attempt) (log (ESleep 2000) w)
else (false, w)
end.

(** The body of the outer [try]. *)
Definition download_song_body (w : world) : result bool * world :=
match target_filename s with
| Raise e => (Raise e, w)
| Ok filename =>
let filepath := target_path filename in
let fetch :=
let '(b, w') := attempts filepath (Z.to_nat max_retries) 0 w in
(Ok b, w') in
match files w !! filepath with
| Some content =>
match (size ← getitem s "size";
size_difference (Z.of_nat (length content)) size) with
| Raise e => (Raise e, w)
| Ok d => if Z.abs d <? 1024 then (Ok true, w) else fetch
end
| None => fetch
end
end.

(** [download_song(song, max_retries)]: the outer handler formats
[song['index']] once more before it returns [False]. *)
Definition download_song (w : world) : result bool * world :=
match download_song_body w with
| (Ok b, w') => (Ok b, w')
| (Raise _, w') =>
(index ← getitem s "index"; _ ← format_03d index; Ok false, w')
end.

End OneSong.

(** *** [download_all_songs] and the entry point *)






End Downloader.

(** ** [music_downloader.py]: the calls to the remote API *)

Module Fetcher.
Import IO.

(** An answer of the API: the request raises (time-out, connection
error), or a response arrives with a status code and a body that
is [None] when it does not decode to the expected JSON object. *)
Inductive answer (P : Type) :=
| Raises
| Answer (status_code : Z) (body : option (option Z * P)).
Arguments Raises {P}.
Arguments Answer {P} status_code body.

(** The [playlist] object: its name and the identifiers in
[trackIds]. *)
Record playlist := mkPlaylist {
playlist_name : option str;
trackIds : list Z
}.

(** One entry of [songs] in a song-detail answer. *)
Record song_detail := mkSongDetail {
sd_id : Z;
sd_name : option str;
sd_artists : list (option str)
}.

(** One entry of [data] in a song-link answer. *)
Record link_entry := mkLinkEntry {
le_url : option str;
le_br : option Z;
le_size : option Z;
le_type : option str
}.

(** The dictionary that [get_song_url_v1] returns. *)
Record url_info := mkUrlInfo {
ui_url : str;
ui_level : str;
ui_br : Z;
ui_size : Z;
ui_type : str;
ui_song_id : Z
}.

Definition detail_endpoint : str := u "/playlist/detail".
Definition songs_endpoint : str := u "/song/detail".
Definition link_endpoint : str := u "/song/url/v1".

(** *** [get_playlist_detail] *)

Section PlaylistDetail.
(** [net i] answers attempt [i]; the payload is the [playlist]
object, [None] when it is missing or empty. *)
Variable net : nat -> answer (option playlist).

Definition detail_max_retries : Z := 3.

(** [n] iterations of the loop left, [attempt] the loop variable. *)
Fixpoint detail_attempts (n attempt : nat) (t : list event)
: option playlist * list event :=
match n with
| O => (None, t)
| S n' =>
let t := t ++ [ERequest detail_endpoint] in
let retry :=
if Z.of_nat attempt <? detail_max_retries - 1
then detail_attempts n' (S attempt) (t ++ [ESleep 3000])
else (None, t) in
match net attempt with
| Raises => retry
| Answer status_code body =>
if status_code =? 404 then (None, t)
else if status_code =? 403 then (None, t)
else if negb (status_code =? 200) then retry
else match body with
| None => retry
| Some (code, pl) =>
if bool_decide (code = Some 200) then (pl, t)
else retry
end
end
end.

Definition get_playlist_detail (t : list event)
: option playlist * list event :=
detail_attempts (Z.to_nat detail_max_retries) 0 t.
End PlaylistDetail.

(** *** [get_playlist_tracks] *)

Definition batch_size : nat := 50.

(** [range(0, n, step)] for a positive step. *)
Definition range_step (n step : nat) : list nat :=
map (fun k => (k * step)%nat) (seq 0 ((n + step - 1) / step)).

(** [l[i:i+k]] *)
Definition slice {A} (l : list A) (i k : nat) : list A :=
firstn k (skipn i l).

Section Tracks.
(** The answer to the playlist-detail request, and [net b] the
answer to the request for the batch that starts at index [b]. *)
Variable first : answer (option playlist).
Variable net : nat -> list Z -> answer (list song_detail).

(** The loop over the batch starts.  [None]: an exception reached
the handler of the function. *)
Fixpoint batches (song_ids : list Z) (starts : list nat)
(all_songs : list song_detail) (t : list event)
: option (list song_detail) * list event :=
match starts with
| [] => (Some all_songs, t)
| i :: rest =>
let batch_ids := slice song_ids i batch_size in
let t := t ++ [ERequest songs_endpoint] in
match net i batch_ids with
| Raises => (None, t)
| Answer status_code body =>
if negb (status_code =? 200) then
batches song_ids rest all_songs t
else match body with
| None => (None, t)
| Some (code, songs) =>
batches song_ids rest
(if bool_decide (code = Some 200)
then all_songs ++ songs else all_songs)
(t ++ [ESleep 500])
end
end
end.

Definition get_playlist_tracks (t : list event)
: list song_detail * list event :=
let t := t ++ [ERequest detail_endpoint] in
match first with
| Raises => ([], t)
| Answer status_code body =>
if negb (status_code =? 200) then ([], t)
else match body with
| None => ([], t)
| Some (code, pl) =>
if negb (bool_decide (code = Some 200)) then ([], t)
else
let song_ids :=
match pl with
| Some p => trackIds p
| None => []
end in
match song_ids with
| [] => ([], t)
| _ =>
match batches song_ids
(range_step (length song_ids) batch_size)
[] t with
| (Some songs, t') => (songs, t')
| (None, t') => ([], t')
end
end
end
end.
End Tracks.

(** *** [get_song_url_v1] *)

Section SongUrl.
Variable net : nat -> answer (list link_entry).
Variable song_id : Z.
Variable quality_level : str.

Definition url_max_retries : Z := 2.

Fixpoint url_attempts (n attempt : nat) (t : list event)
: option url_info * list event :=
match n with
| O => (None, t)
| S n' =>
let t := t ++ [ESleepRandom; ERequest link_endpoint] in
let retry :=
if Z.of_nat attempt <? url_max_retries - 1
then url_attempts n' (S attempt) (t ++ [ESleep 500])
else (None, t) in
match net attempt with
| Raises => retry
| Answer status_code body =>
if negb (status_code =? 200) then retry
else match body with
| None => retry
| Some (code, data) =>
if bool_decide (code = Some 200) then
match data with
| [] => retry
| song_data :: _ =>
match le_url song_data with
| Some (c :: url) =>
(Some (mkUrlInfo (c :: url) quality_level
(default 0 (le_br song_data))
(default 0 (le_size song_data))
(default [] (le_type song_data))
song_id), t)
| _ => (None, t)
end
end
else retry
end
end
end.

Definition get_song_url_v1 (t : list event)
: option url_info * list event :=
url_attempts (Z.to_nat url_max_retries) 0 t.
End SongUrl.

(** *** The loop of [process_playlist] *)

(** [', '.join(artists) if artists else '未知歌手'] *)
Definition artist_names (s : song_detail) : str :=
match sd_artists s with
| [] => u "未知歌手"
| artists => join (u ", ") (map (default []) artists)
end.

Record progress := mkProgress {
manifest : Manifest.file;
success_count : Z;
events : list event
}.

(** [for i, song in enumerate(songs_detail, 1)]; [nets i] answers the
link requests for the song numbered [i]. *)
Fixpoint process_songs (nets : Z -> nat -> answer (list link_entry))
(quality_level : str) (songs : list song_detail) (i : Z)
(p : progress) : progress :=
match songs with
| [] => p
| song :: rest =>
let song_name := default (u "未知歌曲") (sd_name song) in
let '(url_info, t) :=
get_song_url_v1 (nets i) (sd_id song) quality_level (events p) in
let p' :=
match url_info with
| Some info =>
let song_info :=
Manifest.mkTrack song_name (artist_names song) (ui_url info)
quality_level (ui_br info) (ui_size info) (ui_type info)
(Some (sd_id song)) in
mkProgress
(Manifest.append_song_to_file song_info i (manifest p))
(success_count p + 1) (t ++ [ESleep 500])
| None => mkProgress (manifest p) (success_count p)
(t ++ [ESleep 500])
end in
process_songs nets quality_level rest (i + 1) p'
end.

End Fetcher.

(** ** Statements of the specification, for comparison with the code *)

Module Spec.


(** [n] requests for [url] with a wait of [ms] milliseconds between
one and the next, none before the first and none after the last. *)
Fixpoint spaced_requests (url : str) (ms : Z) (n : nat) : list IO.event :=
match n with
| O => []
| S k =>
IO.ERequest url
:: match k with
| O => []
| S _ => IO.ESleep ms :: spaced_requests url ms k
end
end.

(** A download attempt that fails for good: the request raises, or
the status is neither 200 nor 206. *)
Definition refused (r : Downloader.response) : Prop :=
r = Downloader.GetRaises
\/ exists code cl chunks sr,
r = Downloader.Response code cl chunks sr
/\ code <> 200 /\ code <> 206.

(** A link request that failed at the HTTP or API level: the request
raises, the status is not 200, the body does not decode, the API
code is not 200, or [data] is empty. *)
Definition http_failure (a : Fetcher.answer (list Fetcher.link_entry))
: bool :=
match a with
| Fetcher.Raises => true
| Fetcher.Answer status_code body =>
negb (status_code =? 200)
|| match body with
| None => true
| Some (code, data) =>
negb (bool_decide (code = Some 200))
|| bool_decide (data = [])
end
end.

(** A well-formed answer whose first entry has no link, or an empty
one. *)
Definition url_missing (a : Fetcher.answer (list Fetcher.link_entry))
: bool :=
match a with
| Fetcher.Answer status_code (Some (code, entry :: _)) =>
(status_code =? 200) && bool_decide (code = Some 200)
&& match Fetcher.le_url entry with
| Some (_ :: _) => false
| _ => true
end
| _ => false
end.

(** The tracks that end up in the manifest: those whose link resolves,
each with its position in the playlist (counted from [i]). *)
Fixpoint resolved_tracks
(nets : Z -> nat -> Fetcher.answer (list Fetcher.link_entry))
(quality_level : str) (songs : list Fetcher.song_detail) (i : Z)
: list (Manifest.TrackRecord * Z) :=
match songs with
| [] => []
| song :: rest =>
match (Fetcher.get_song_url_v1 (nets i) (Fetcher.sd_id song)
quality_level []).1 with
| Some info =>
[(Manifest.mkTrack
(default (u "未知歌曲") (Fetcher.sd_name song))
(Fetcher.artist_names song) (Fetcher.ui_url info)
quality_level (Fetcher.ui_br info) (Fetcher.ui_size info)
(Fetcher.ui_type info) (Some (Fetcher.sd_id song)), i)]
| None => []
end ++ resolved_tracks nets quality_level rest (i + 1)
end.

(** Appending the listed blocks in order. *)
Definition append_tracks (tracks : list (Manifest.TrackRecord * Z))
(f : Manifest.file) : Manifest.file :=
fold_left (fun f t => Manifest.append_song_to_file t.1 t.2 f) tracks f.

(** What a batch contributes: its songs when the status and the API
code are both 200, nothing otherwise. *)
Definition batch_songs (a : Fetcher.answer (list Fetcher.song_detail))
: list Fetcher.song_detail :=
match a with
| Fetcher.Answer status_code (Some (code, songs)) =>
if (status_code =? 200) && bool_decide (code = Some 200)
then songs else []
| _ => []
end.

(** A batch request that was answered: it did not raise, and a
status of 200 came with a body that decodes.  The failures left
are a status other than 200 and an API code other than 200. *)
Definition batch_answered (a : Fetcher.answer (list Fetcher.song_detail))
: bool :=
match a with
| Fetcher.Raises => false
| Fetcher.Answer status_code body =>
negb (status_code =? 200) || bool_decide (is_Some body)
end.

(** A playlist-detail attempt after which the code tries again: the
request raises, or the status is none of 200, 403 and 404, or the
body does not decode, or the API code is not 200. *)
Definition detail_retryable (a : Fetcher.answer (option Fetcher.playlist))
: bool :=
match a with
| Fetcher.Raises => true
| Fetcher.Answer status_code body =>
negb (status_code =? 404) && negb (status_code =? 403)
&& (negb (status_code =? 200)
|| match body with
| None => true
| Some (code, _) => negb (bool_decide (code = Some 200))
end)
end.


(** The fields of a parsed record, in the order of the manifest. *)
Definition fields_of (s : Downloader.song) : list (option Downloader.pyval) :=
[s !! "index"; s !! "name"; s !! "artist"; s !! "song_id"; s !! "quality";
s !! "bitrate"; s !! "url"; s !! "size"; s !! "type"].







(** The groups that the pattern captures on the block of a clean
record. *)
Definition groups_of (song : Manifest.TrackRecord) (index : Z) : list str :=
[ Z_str index; Manifest.name song; Manifest.artist song;
match Manifest.song_id song with Some id => Z_str id | None => [] end;
Manifest.quality song; Z_str (Manifest.bitrate song);
Manifest.url song; Z_str (Manifest.size song); Manifest.type song ].










End Spec.

(** ** Concrete inputs used by the examples *)

Module Samples.
Import Downloader.

(** A record as [parse_list_file] builds it. *)
Definition sample_song : song :=
<["index" := VInt 1]>
(<["name" := VStr (u "晴天")]>
(<["artist" := VStr (u "周杰伦")]>
(<["song_id" := VStr (u "186016")]>
(<["quality" := VStr (u "standard")]>
(<["bitrate" := VInt 128000]>
(<["url" := VStr (u "http://m701.music.126.net/x.mp3")]>
(<["size" := VInt 2048]>
(<["type" := VStr (u "mp3")]> (∅ : song))))))))).

Definition sample_filename : str := u "001. 晴天 - 周杰伦.mp3".

(** The download directory holding the sample's file with [n] bytes,
nothing having happened yet. *)
Definition world_with (n : nat) : world :=
mkWorld {[ target_path sample_filename := repeat 0%N n ]} [].

Definition empty_world : world := mkWorld ∅ [].

(** A server that answers every request with status 500. *)
Definition net_500 : nat -> response :=
fun _ => Response 500 None [] false.

Definition always_writable : str -> bool := fun _ => true.

(** An API whose first answer for a link is well formed but carries no
link, and whose second answer carries one. *)
Definition net_link_late : nat -> Fetcher.answer (list Fetcher.link_entry) :=
fun attempt =>
match attempt with
| O => Fetcher.Answer 200
(Some (Some 200,
[Fetcher.mkLinkEntry None (Some 0) (Some 0) None]))
| _ => Fetcher.Answer 200
(Some (Some 200,
[Fetcher.mkLinkEntry
(Some (u "http://m701.music.126.net/x.mp3"))
(Some 128000) (Some 2048) (Some (u "mp3"))]))
end.

(** An API that answers every link request with status 500. *)
Definition net_link_500 : nat -> Fetcher.answer (list Fetcher.link_entry) :=
fun _ => Fetcher.Answer 500 None.

(** A playlist of 120 tracks numbered from 1. *)
Definition playlist_120 : Fetcher.playlist :=
Fetcher.mkPlaylist (Some (u "My list")) (map Z.of_nat (seq 1 120)).

Definition detail_of (id : Z) : Fetcher.song_detail :=
Fetcher.mkSongDetail id (Some (u "song")) [Some (u "artist")].

(** The batch that starts at index 50 is refused with status 500; the
others are answered in full. *)
Definition net_batches : nat -> list Z
-> Fetcher.answer (list Fetcher.song_detail) :=
fun start ids =>
if (start =? 50)%nat then Fetcher.Answer 500 None
else Fetcher.Answer 200 (Some (Some 200, map detail_of ids)).

(** A playlist-detail server that is always down. *)
Definition net_detail_500 : nat -> Fetcher.answer (option Fetcher.playlist) :=
fun _ => Fetcher.Answer 500 None.




End Samples.

(** ** Counting and shaping traces *)

Module Trace.
Import IO.

Definition is_sleep (e : event) : bool :=
match e with
| ESleep _ => true
| _ => false
end.

(** Number of fixed waits in a trace. *)
Definition sleeps (t : list event) : nat :=
length (List.filter is_sleep t).

(** [k] refused requests for [url], each followed by a wait of [ms]
milliseconds. *)
Fixpoint refused_rounds (url : str) (ms : Z) (k : nat) : list event :=
match k with
| O => []
| S k' => ERequest url :: ESleep ms :: refused_rounds url ms k'
end.

(** A server that answers every attempt with the same chunks, after
  which the stream raises. *)
Definition broken_net (code : Z) (content_length : option str)
  (chunks : list (list N)) : nat -> Downloader.response :=
fun _ => Downloader.Response code content_length chunks true.

End Trace.

(** ** Shapes of records *)

Module Shape.
Import Downloader.


End Shape.

(** ** Outcomes of the API calls *)

Module Outcome.
Import IO Fetcher.

(** What one playlist-detail answer decides: [Some r] when the function
  returns [r] on it (status 404 or 403, or status 200 with API code
  200), [None] when it goes on to the next attempt. *)
Definition detail_final (a : answer (option playlist))
  : option (option playlist) :=
match a with
| Raises => None
| Answer status_code body =>
    if (status_code =? 404) || (status_code =? 403) then Some None
    else if status_code =? 200 then
      match body with
      | Some (code, pl) =>
          if bool_decide (code = Some 200) then Some pl else None
      | None => None
      end
    else None
end.

(** [k] failed link attempts: a random wait, the request and the fixed
  wait of half a second, each time. *)
Fixpoint link_rounds (k : nat) : list event :=
match k with
| O => []
| S k' => ESleepRandom :: ERequest link_endpoint :: ESleep 500
          :: link_rounds k'
end.

(** The dictionary built from the first entry of a link answer. *)
Definition info_of (entry : link_entry) (url quality_level : str)
  (song_id : Z) : url_info :=
mkUrlInfo url quality_level (default 0 (le_br entry))
  (default 0 (le_size entry)) (default [] (le_type entry)) song_id.

End Outcome.

(** ** [music_downloader.py]: one playlist run *)

Module Playlist.
Import IO Fetcher.

(** [self.quality_levels] *)
Definition quality_levels : list (str * str) :=
[ (u "1", u "standard"); (u "2", u "higher"); (u "3", u "exhigh");
  (u "4", u "lossless"); (u "5", u "hires"); (u "6", u "jyeffect");
  (u "7", u "sky"); (u "8", u "dolby"); (u "9", u "jymaster") ].

(** [self.quality_levels[choice]] when [choice in self.quality_levels]. *)
Definition quality_of (choice : str) : option str :=
match List.find (fun kv => str_eqb (fst kv) choice) quality_levels with
| Some kv => Some (snd kv)
| None => None
end.

(** [select_quality()]: [stdin] holds the lines that [input] will
  return.  The loop asks again until an answer, stripped, is a key of
  the table; the result is the level and the lines left.  [None]:
  the lines ran out and [input] raised [EOFError]. *)
Fixpoint select_quality (stdin : list str) : option (str * list str) :=
match stdin with
| [] => None
| line :: rest =>
    match quality_of (strip line) with
    | Some level => Some (level, rest)
    | None => select_quality rest
    end
end.

(** The identifiers that [get_playlist_tracks] reads from the answer to
  its detail request; none unless status and API code are both 200. *)
Definition listed_ids (a : answer (option playlist)) : list Z :=
match a with
| Answer status_code (Some (code, Some pl)) =>
    if (status_code =? 200) && bool_decide (code = Some 200)
    then trackIds pl else []
| _ => []
end.

(** What the API answers during one run: to the attempts of
  [get_playlist_detail], to the detail request and the batch requests
  of [get_playlist_tracks], and to the link requests for the track
  numbered [i]. *)
Record servers := mkServers {
detail : nat -> answer (option playlist);
first : answer (option playlist);
batch : nat -> list Z -> answer (list song_detail);
links : Z -> nat -> answer (list link_entry)
}.

(** The file [list.txt], the trace of requests and waits, and the lines
  still to be read from the console. *)
Record state := mkState {
list_txt : Manifest.file;
trace : list event;
stdin : list str
}.

(** A run returns, or [EOFError] leaves it from [select_quality]. *)
Inductive outcome :=
| Returned (s : state)
| EOFError (s : state).

Definition final (o : outcome) : state :=
match o with
| Returned s => s
| EOFError s => s
end.

Section Run.
Variable netloc_valid : str -> bool.
Variable unquote_escaped : str -> str.
Variable srv : servers.
(** What [time.strftime] returns in [init_file] and in
[update_file_summary]. *)
Variable started finished : str.

(** [process_playlist(playlist_url_or_id)] *)
Definition process_playlist (playlist_url_or_id : str) (s : state)
: outcome :=
match Resolver.extract_playlist_id netloc_valid unquote_escaped
      playlist_url_or_id with
| None | Some [] => Returned s
| Some (_ :: _) =>
  let '(playlist_detail, t1) :=
    get_playlist_detail (detail srv) (trace s) in
  match playlist_detail with
  | None => Returned (mkState (list_txt s) t1 (stdin s))
  | Some pl =>
      let name := default (u "未知歌单") (playlist_name pl) in
      let '(songs_detail, t2) :=
        get_playlist_tracks (first srv) (batch srv) t1 in
      match songs_detail with
      | [] => Returned (mkState (list_txt s) t2 (stdin s))
      | _ :: _ =>
          match select_quality (stdin s) with
          | None => EOFError (mkState (list_txt s) t2 [])
          | Some (quality_level, rest) =>
              let f := Manifest.init_file name quality_level started
                         (list_txt s) in
              let p := process_songs (links srv) quality_level
                         songs_detail 1 (mkProgress f 0 t2) in
              Returned
                (mkState
                   (Manifest.update_file_summary (success_count p)
                      finished (manifest p))
                   (events p) rest)
          end
      end
  end
end.
End Run.

End Playlist.

(** ** Listings: blocks written at given positions *)

Module Listing.



Definition groups (tracks : list (Manifest.TrackRecord * Z))
  : list (list str) :=
map (fun t => Spec.groups_of (fst t) (snd t)) tracks.




End Listing.

(** ** A small run, used by the examples *)

Module Scenario.
Import Fetcher.

Definition two_tracks : playlist :=
mkPlaylist (Some (u "My list")) [186016; 186017].

Definition link_of (i : Z) : nat -> answer (list link_entry) :=
fun _ =>
  if i =? 2 then
    Answer 200
      (Some (Some 200,
             [mkLinkEntry (Some (u "http://m701.music.126.net/x.flac"))
                (Some 999000) (Some 31457280) (Some (u "flac"))]))
  else Answer 500 None.

(** The playlist and its two tracks are served; only the second track
  gets a link. *)
Definition srv : Playlist.servers :=
Playlist.mkServers
  (fun _ => Answer 200 (Some (Some 200, Some two_tracks)))
  (Answer 200 (Some (Some 200, Some two_tracks)))
  (fun _ ids => Answer 200 (Some (Some 200, map Samples.detail_of ids)))
  link_of.

(** Nothing on disk, nothing done yet; the user first types a letter,
  then 4 between spaces. *)
Definition start : Playlist.state :=
Playlist.mkState None [] [u "x"; u " 4 "; u "later"].

End Scenario.


(** * Properties *)

Import Downloader.

(** ** File names *)

Lemma replace_illegal_length (filename : str) :
  length (replace_illegal filename) = length filename.
Proof. unfold replace_illegal. apply length_map. Qed.

Lemma replace_illegal_clean (filename : str) :
  Forall (fun c => is_illegal c = false) (replace_illegal filename).
Proof.
  unfold replace_illegal. apply Forall_map, Forall_forall.
  intros c _. simpl. destruct (is_illegal c) eqn:E; [reflexivity | exact E].
Qed.

Lemma replace_illegal_lookup (filename : str) (i : nat) (c : N) :
  filename !! i = Some c ->
  replace_illegal filename !! i
  = Some (if is_illegal c then UNDERSCORE else c).
Proof.
  unfold replace_illegal. revert i.
  induction filename as [|a l IH]; intros [|i] H; simplify_eq/=; auto.
Qed.

Lemma sanitize_filename_take (filename : str) :
  sanitize_filename filename = take 200 (replace_illegal filename).
Proof.
  unfold sanitize_filename.
  destruct (200 <? length (replace_illegal filename))%nat eqn:E.
  - reflexivity.
  - apply Nat.ltb_ge in E. symmetry. apply take_ge. exact E.
Qed.

Lemma is_illegal_spec (c : N) :
  is_illegal c = true <->
  c ∈ [LT; GT; COLON; DQUOTE; SLASH; BACKSLASH; PIPE; QUESTION; STAR].
Proof.
  unfold is_illegal. rewrite !orb_true_iff, !N.eqb_eq.
  rewrite !elem_of_cons, elem_of_nil. tauto.
Qed.

(** C5. [sanitize_filename] replaces every one of the nine characters by
    an underscore, position by position, keeps every other character, and
    returns at most 200 characters; the file name that [download_song]
    builds from index, name, artist and type is such an output, so it has
    at most 200 characters and none of the nine. *)
Theorem sanitize_filename_spec (filename : str) :
  let out := sanitize_filename filename in
  (length out <= 200)%nat
  /\ length out = Nat.min 200 (length filename)
  /\ (forall c, c ∈ out ->
        c ∉ [LT; GT; COLON; DQUOTE; SLASH; BACKSLASH; PIPE; QUESTION; STAR])
  /\ (forall i c, (i < 200)%nat -> filename !! i = Some c ->
        out !! i
        = Some (if bool_decide
                     (c ∈ [LT; GT; COLON; DQUOTE; SLASH; BACKSLASH; PIPE;
                           QUESTION; STAR])
                then UNDERSCORE else c))
  /\ (forall (s : song) (name : str), target_filename s = Ok name ->
        (length name <= 200)%nat
        /\ forall c, c ∈ name ->
             c ∉ [LT; GT; COLON; DQUOTE; SLASH; BACKSLASH; PIPE; QUESTION;
                  STAR]).
Proof.
  assert (Hclean : forall f c, c ∈ sanitize_filename f ->
            c ∉ [LT; GT; COLON; DQUOTE; SLASH; BACKSLASH; PIPE; QUESTION;
                 STAR]).
  { intros f c Hin Hbad. apply is_illegal_spec in Hbad.
    rewrite sanitize_filename_take in Hin.
    apply elem_of_take in Hin as (i & Hi & _).
    pose proof (replace_illegal_clean f) as Hall.
    rewrite Forall_forall in Hall.
    apply list_elem_of_lookup_2 in Hi.
    specialize (Hall _ Hi). congruence. }
  assert (Hlen : forall f, length (sanitize_filename f)
                           = Nat.min 200 (length f)).
  { intros f. rewrite sanitize_filename_take, length_take,
      replace_illegal_length. reflexivity. }
  assert (Hname : forall (s : song) name, target_filename s = Ok name ->
            exists f, name = sanitize_filename f).
  { intros s name H. unfold target_filename in H.
    destruct (getitem s "index") as [v0|]; simpl in H; [|discriminate].
    destruct (format_03d v0) as [i3|]; simpl in H; [|discriminate].
    destruct (getitem s "name") as [v1|]; simpl in H; [|discriminate].
    destruct (getitem s "artist") as [v2|]; simpl in H; [|discriminate].
    destruct (getitem s "type") as [v3|]; simpl in H; [|discriminate].
    injection H as <-. eauto. }
  cbv zeta. split; [|split; [|split; [|split]]].
  - rewrite Hlen. lia.
  - apply Hlen.
  - apply Hclean.
  - intros i c Hi Hc. rewrite sanitize_filename_take.
    rewrite lookup_take_lt by exact Hi.
    rewrite (replace_illegal_lookup _ _ _ Hc).
    destruct (is_illegal c) eqn:E.
    + apply is_illegal_spec in E. rewrite bool_decide_eq_true_2; done.
    + rewrite bool_decide_eq_false_2; [done |].
      intros Hbad. apply is_illegal_spec in Hbad. congruence.
  - intros s name H. destruct (Hname s name H) as [f ->]. split.
    + rewrite Hlen. lia.
    + apply Hclean.
Qed.

(** ** Playlist identifier *)

Section ResolverFacts.
Variable netloc_valid : str -> bool.
Variable unquote_escaped : str -> str.

Local Abbreviation extract := (Resolver.extract_playlist_id netloc_valid unquote_escaped).

(** An input without the word is returned as it is. *)
Lemma extract_playlist_id_bare (s : str) :
contains (u "playlist") s = false -> extract s = Some s.
Proof. intros H. unfold Resolver.extract_playlist_id. rewrite H. reflexivity. Qed.

(** The identifier is found in a query that follows the path. *)
Lemma extract_playlist_id_query_example :
netloc_valid (u "music.163.com") = true ->
extract (u "https://music.163.com/playlist?id=24381616")
= Some (u "24381616").
Proof.
intros H. vm_compute in H. vm_compute. rewrite H. reflexivity.
Qed.

(** The identifier is found in the path segment after the word. *)
Lemma extract_playlist_id_path_example :
netloc_valid (u "music.163.com") = true ->
extract (u "https://music.163.com/playlist/24381616/")
= Some (u "24381616").
Proof.
intros H. vm_compute in H. vm_compute. rewrite H. reflexivity.
Qed.

(** C1. On the documented example link the identifier sits behind the
fragment mark, [urlparse] yields neither a query nor a path segment
for it, and the function ends without a value, while the bare
identifier is returned as it is. *)
Theorem extract_playlist_id_documented_link :
extract (u "https://music.163.com/#/playlist?id=24381616") = None
/\ extract (u "24381616") = Some (u "24381616").
Proof.
split.
- vm_compute. destruct (netloc_valid _); reflexivity.
- apply extract_playlist_id_bare. vm_compute. reflexivity.
Qed.

End ResolverFacts.

(** ** Worker count *)




(** ** One download *)

Import IO.

Lemma requests_app (t1 t2 : list event) :
  requests (t1 ++ t2) = (requests t1 + requests t2)%nat.
Proof. unfold requests. rewrite List.filter_app, length_app. reflexivity. Qed.

Lemma spaced_requests_count (url : str) (ms : Z) (n : nat) :
  requests (Spec.spaced_requests url ms n) = n.
Proof.
  induction n as [|[|k] IH]; [reflexivity | reflexivity |].
  change (requests (Spec.spaced_requests url ms (S (S k))))
    with (S (requests (Spec.spaced_requests url ms (S k)))).
  rewrite IH. reflexivity.
Qed.

Section OneSongFacts.
Variable net : nat -> response.
Variable writable : str -> bool.
Variable s : song.
Variable max_retries : Z.

Lemma try_once_refused (filepath url : str) (attempt : nat) (w : world) :
s !! "url" = Some (VStr url) ->
Spec.refused (net attempt) ->
try_once net writable s filepath attempt w = (false, log (ERequest url) w).
Proof.
intros Hurl Hr. unfold try_once. rewrite Hurl.
destruct Hr as [-> | (code & cl & chunks & sr & -> & H200 & H206)].
- reflexivity.
- apply Z.eqb_neq in H200, H206. rewrite H200, H206. reflexivity.
Qed.

Lemma attempts_all_refused (filepath url : str) :
s !! "url" = Some (VStr url) ->
(forall i, Spec.refused (net i)) ->
forall (n attempt : nat) (w : world),
Z.of_nat (attempt + n) = max_retries ->
attempts net writable s max_retries filepath n attempt w
= (false, mkWorld (files w)
(trace w ++ Spec.spaced_requests url 2000 n)).
Proof.
intros Hurl Hnet. induction n as [|n IH]; intros attempt w Hn.
- simpl. rewrite app_nil_r. destruct w; reflexivity.
- cbn [attempts]. rewrite (try_once_refused _ url) by auto.
destruct n as [|k].
+ replace (Z.of_nat attempt <? max_retries - 1) with false
by (symmetry; apply Z.ltb_ge; lia).
reflexivity.
+ replace (Z.of_nat attempt <? max_retries - 1) with true
by (symmetry; apply Z.ltb_lt; lia).
rewrite IH by lia. cbn [log files trace Spec.spaced_requests].
rewrite <- !app_assoc. reflexivity.
Qed.






End OneSongFacts.

(** C3 (as amended). When the target path holds a file whose size differs
    from the record's size by less than 1024 bytes, [download_song]
    returns [True] at once: the world is unchanged, so no request is
    sent. *)
Theorem download_song_skips_existing (net : nat -> response)
    (writable : str -> bool) (s : song) (max_retries : Z) (w : world)
    (filename : str) (content : list N) (size : Z) :
  target_filename s = Ok filename ->
  files w !! target_path filename = Some content ->
  s !! "size" = Some (VInt size) ->
  Z.abs (Z.of_nat (length content) - size) < 1024 ->
  download_song net writable s max_retries w = (Ok true, w)
  /\ requests (trace (download_song net writable s max_retries w).2)
     = requests (trace w).
Proof.
  intros Hname Hfile Hsize Hclose.
  assert (E : download_song net writable s max_retries w = (Ok true, w)).
  { unfold download_song, download_song_body. rewrite Hname, Hfile.
    unfold getitem. rewrite Hsize. simpl.
    apply Z.ltb_lt in Hclose. rewrite Hclose. reflexivity. }
  rewrite E. split; reflexivity.
Qed.

Lemma download_song_skips_existing_witness :
  download_song Samples.net_500 Samples.always_writable Samples.sample_song 3
    (Samples.world_with 3071)
  = (Ok true, Samples.world_with 3071)
  /\ requests (trace (download_song Samples.net_500 Samples.always_writable
                        Samples.sample_song 3 (Samples.world_with 3071)).2)
     = requests (trace (Samples.world_with 3071)).
Proof.
  apply (download_song_skips_existing Samples.net_500 Samples.always_writable
           Samples.sample_song 3 (Samples.world_with 3071)
           Samples.sample_filename (repeat 0%N 3071) 2048).
  - vm_compute. reflexivity.
  - vm_compute. reflexivity.
  - vm_compute. reflexivity.
  - vm_compute. reflexivity.
Defined.

(** C3, the claim as stated fails at the bound: the file on disk has
    1024 bytes, the record expects 2048 (a difference of exactly 1024),
    and the three requests are sent all the same. *)
Lemma download_song_no_skip_at_1024 :
  target_filename Samples.sample_song = Ok Samples.sample_filename
  /\ files (Samples.world_with 1024) !! target_path Samples.sample_filename
     = Some (repeat 0%N 1024)
  /\ Samples.sample_song !! "size" = Some (VInt 2048)
  /\ Z.abs (Z.of_nat (length (repeat 0%N 1024)) - 2048) = 1024
  /\ (download_song Samples.net_500 Samples.always_writable
        Samples.sample_song 3 (Samples.world_with 1024)).1 = Ok false
  /\ requests (trace (download_song Samples.net_500 Samples.always_writable
                        Samples.sample_song 3 (Samples.world_with 1024)).2)
     = 3%nat.
Proof. vm_compute. repeat split; reflexivity. Qed.

(** C4. When the download is not skipped and every attempt is refused
    (the request raises, or the status is neither 200 nor 206),
    [download_song] sends exactly [max_retries] requests, waits 2 seconds
    between one and the next, touches no file and returns [False]. *)
Theorem download_song_retry_bound (net : nat -> response)
    (writable : str -> bool) (s : song) (max_retries : Z) (w : world)
    (filename url : str) :
  target_filename s = Ok filename ->
  s !! "url" = Some (VStr url) ->
  (forall content, files w !! target_path filename = Some content ->
     exists size, s !! "size" = Some (VInt size)
                  /\ 1024 <= Z.abs (Z.of_nat (length content) - size)) ->
  (forall i, Spec.refused (net i)) ->
  download_song net writable s max_retries w
  = (Ok false,
     mkWorld (files w)
       (trace w ++ Spec.spaced_requests url 2000 (Z.to_nat max_retries)))
  /\ requests (trace (download_song net writable s max_retries w).2)
     = (requests (trace w) + Z.to_nat max_retries)%nat.
Proof.
  intros Hname Hurl Hnoskip Hnet.
  assert (E : download_song net writable s max_retries w
              = (Ok false,
                 mkWorld (files w)
                   (trace w
                    ++ Spec.spaced_requests url 2000 (Z.to_nat max_retries)))).
  { unfold download_song, download_song_body. rewrite Hname.
    assert (Ha : attempts net writable s max_retries (target_path filename)
                   (Z.to_nat max_retries) 0 w
                 = (false, mkWorld (files w)
                     (trace w ++ Spec.spaced_requests url 2000
                                   (Z.to_nat max_retries)))).
    { destruct (Z_lt_le_dec 0 max_retries) as [Hpos | Hneg].
      - apply attempts_all_refused; auto. simpl. lia.
      - replace (Z.to_nat max_retries) with 0%nat by lia.
        simpl. rewrite app_nil_r. destruct w; reflexivity. }
    rewrite Ha.
    destruct (files w !! target_path filename) as [content|] eqn:Hf;
      [|reflexivity].
    destruct (Hnoskip content eq_refl) as (size & Hsize & Hfar).
    unfold getitem. rewrite Hsize. simpl.
    replace (Z.abs (Z.of_nat (length content) - size) <? 1024) with false
      by (symmetry; apply Z.ltb_ge; lia).
    reflexivity. }
  rewrite E. split; [reflexivity|].
  simpl. rewrite requests_app, spaced_requests_count. reflexivity.
Qed.

Lemma download_song_retry_bound_witness :
  download_song Samples.net_500 Samples.always_writable Samples.sample_song 3
    Samples.empty_world
  = (Ok false,
     mkWorld (files Samples.empty_world)
       (trace Samples.empty_world
        ++ Spec.spaced_requests (u "http://m701.music.126.net/x.mp3") 2000
             (Z.to_nat 3)))
  /\ requests (trace (download_song Samples.net_500 Samples.always_writable
                        Samples.sample_song 3 Samples.empty_world).2)
     = (requests (trace Samples.empty_world) + Z.to_nat 3)%nat.
Proof.
  apply (download_song_retry_bound Samples.net_500 Samples.always_writable
           Samples.sample_song 3 Samples.empty_world Samples.sample_filename).
  - vm_compute. reflexivity.
  - vm_compute. reflexivity.
  - intros content H. vm_compute in H. discriminate H.
  - intros i. right. exists 500, None, [], false.
    split; [reflexivity | split; discriminate].
Defined.

(** C10. A record without the key [index] makes the handler of
    [download_song] raise in its turn: the function ends with
    [KeyError], whatever the network, the directory and the other fields
    are, and returns no Boolean. *)
Theorem download_song_raises_without_index (net : nat -> response)
    (writable : str -> bool) (s : song) (max_retries : Z) (w : world) :
  s !! "index" = None ->
  download_song net writable s max_retries w = (Raise (KeyError "index"), w).
Proof.
  intros Hmissing.
  assert (Hbody : download_song_body net writable s max_retries w
                  = (Raise (KeyError "index"), w)).
  { unfold download_song_body, target_filename, getitem.
    rewrite Hmissing. reflexivity. }
  unfold download_song. rewrite Hbody.
  unfold getitem. rewrite Hmissing. reflexivity.
Qed.

Lemma download_song_raises_without_index_witness :
  download_song Samples.net_500 Samples.always_writable
    (delete "index" Samples.sample_song) 3 Samples.empty_world
  = (Raise (KeyError "index"), Samples.empty_world).
Proof.
  apply (download_song_raises_without_index Samples.net_500
           Samples.always_writable (delete "index" Samples.sample_song) 3
           Samples.empty_world).
  vm_compute. reflexivity.
Defined.

(** ** The worker pool *)



(** ** Link resolution *)

Import Fetcher.

Section SongUrlFacts.
Variable net : nat -> answer (list link_entry).
Variable song_id : Z.
Variable quality_level : str.

(** The events of a call are added after those already there, and the
value returned does not depend on them. *)
Lemma url_attempts_frame (n attempt : nat) (t : list event) :
url_attempts net song_id quality_level n attempt t
= ((url_attempts net song_id quality_level n attempt []).1,
t ++ (url_attempts net song_id quality_level n attempt []).2).
Proof.
revert attempt t. induction n as [|n IH]; intros attempt t.
- simpl. by rewrite app_nil_r.
- cbn [url_attempts].
assert (Hretry : forall t0 : list event,
(if Z.of_nat attempt <? url_max_retries - 1
then url_attempts net song_id quality_level n (S attempt)
((t ++ t0) ++ [ESleep 500])
else (None, t ++ t0))
= ((if Z.of_nat attempt <? url_max_retries - 1
then url_attempts net song_id quality_level n (S attempt)
(([] ++ t0) ++ [ESleep 500])
else (None, [] ++ t0)).1,
t ++ (if Z.of_nat attempt <? url_max_retries - 1
then url_attempts net song_id quality_level n (S attempt)
(([] ++ t0) ++ [ESleep 500])
else (None, [] ++ t0)).2)).
{ intros t0. destruct (Z.of_nat attempt <? url_max_retries - 1).
- rewrite (IH _ ((t ++ t0) ++ [ESleep 500])).
rewrite (IH _ (([] ++ t0) ++ [ESleep 500])). simpl.
by rewrite <- !app_assoc.
- reflexivity. }
repeat case_match; simplify_eq/=; try apply Hretry; reflexivity.
Qed.

Lemma get_song_url_v1_frame (t : list event) :
get_song_url_v1 net song_id quality_level t
= ((get_song_url_v1 net song_id quality_level []).1,
t ++ (get_song_url_v1 net song_id quality_level []).2).
Proof. apply url_attempts_frame. Qed.

(** One request at least and two at most. *)
Lemma get_song_url_v1_requests :
(1 <= requests (get_song_url_v1 net song_id quality_level []).2 <= 2)%nat.
Proof.
unfold get_song_url_v1. change (Z.to_nat url_max_retries) with 2%nat.
cbn [url_attempts]. change (Z.of_nat 0 <? url_max_retries - 1) with true.
change (Z.of_nat 1 <? url_max_retries - 1) with false. cbv iota.
repeat case_match; simplify_eq/=; vm_compute; lia.
Qed.

End SongUrlFacts.

Section SongUrlOutcomes.
Variable net : nat -> answer (list link_entry).
Variable song_id : Z.
Variable quality_level : str.

(** Two failures at the HTTP or API level: two requests, half a
second apart, and no link. *)
Lemma get_song_url_v1_exhausted :
Spec.http_failure (net 0%nat) = true ->
Spec.http_failure (net 1%nat) = true ->
get_song_url_v1 net song_id quality_level []
= (None, [ESleepRandom; ERequest link_endpoint; ESleep 500;
ESleepRandom; ERequest link_endpoint]).
Proof.
intros H0 H1. unfold get_song_url_v1.
change (Z.to_nat url_max_retries) with 2%nat. cbn [url_attempts].
change (Z.of_nat 0 <? url_max_retries - 1) with true.
change (Z.of_nat 1 <? url_max_retries - 1) with false. cbv iota.
unfold Spec.http_failure in H0, H1.
destruct (net 0%nat) as [|sc0 [[c0 [|e0 d0]]|]];
destruct (net 1%nat) as [|sc1 [[c1 [|e1 d1]]|]];
simpl in *;
repeat (case_match; simplify_eq/=); try reflexivity;
try (rewrite ?orb_false_r, ?orb_true_r in *; simplify_eq/=).
Qed.

(** A first answer without a link ends the call: one request, no
second attempt. *)
Lemma get_song_url_v1_no_link :
Spec.url_missing (net 0%nat) = true ->
get_song_url_v1 net song_id quality_level []
= (None, [ESleepRandom; ERequest link_endpoint]).
Proof.
intros H0. unfold get_song_url_v1.
change (Z.to_nat url_max_retries) with 2%nat. cbn [url_attempts].
unfold Spec.url_missing in H0.
destruct (net 0%nat) as [|sc0 [[c0 [|e0 d0]]|]]; simplify_eq/=.
apply andb_true_iff in H0 as [H0 Hu].
apply andb_true_iff in H0 as [Hs Hc].
rewrite Hs, Hc. simpl.
destruct (le_url e0) as [[|]|]; simplify_eq/=; reflexivity.
Qed.
End SongUrlOutcomes.

(** The loop of [process_playlist] visits every track: the manifest
    receives the blocks of the tracks whose link resolved, the counter
    their number, and each track costs at least one request. *)
Lemma process_songs_spec
    (nets : Z -> nat -> answer (list link_entry)) (quality_level : str)
    (songs : list song_detail) :
  forall (i : Z) (p : progress),
    let p' := process_songs nets quality_level songs i p in
    manifest p'
    = Spec.append_tracks (Spec.resolved_tracks nets quality_level songs i)
        (manifest p)
    /\ success_count p'
       = success_count p
         + Z.of_nat (length (Spec.resolved_tracks nets quality_level songs i))
    /\ (requests (events p) + length songs <= requests (events p'))%nat.
Proof.
  induction songs as [|song rest IH]; intros i p; cbv zeta.
  - simpl. split; [reflexivity|]. split; lia.
  - cbn [process_songs Spec.resolved_tracks].
    rewrite (get_song_url_v1_frame (nets i) (sd_id song) quality_level
               (events p)).
    pose proof (get_song_url_v1_requests (nets i) (sd_id song) quality_level)
      as [Hreq _].
    destruct (get_song_url_v1 (nets i) (sd_id song) quality_level [])
      as [[info|] t]; cbn [fst snd] in *.
    + match goal with
      | |- context [process_songs _ _ rest (i + 1) ?q] =>
          destruct (IH (i + 1) q) as (Hm & Hc & Hr)
      end.
      cbv zeta in Hm, Hc, Hr. rewrite Hm, Hc. cbn [manifest success_count events] in *.
      split; [reflexivity|]. split.
      * rewrite length_app. simpl. lia.
      * rewrite !requests_app in Hr. simpl in *. lia.
    + match goal with
      | |- context [process_songs _ _ rest (i + 1) ?q] =>
          destruct (IH (i + 1) q) as (Hm & Hc & Hr)
      end.
      cbv zeta in Hm, Hc, Hr. rewrite Hm, Hc. cbn [manifest success_count events] in *.
      split; [reflexivity|]. split.
      * simpl. lia.
      * rewrite !requests_app in Hr. simpl in *. lia.
Qed.

(** C6 (as amended). [get_song_url_v1] sends at most two requests.  After
    a failure at the HTTP or API level (exception, status other than 200,
    undecodable body, API code other than 200, empty [data]) it tries once
    more, and after two such failures it returns [None].  A well-formed
    answer without a link returns [None] at once, without a second
    request.  The caller goes through every track whatever the outcomes:
    the manifest receives exactly the tracks that resolved and the counter
    their number. *)
Theorem get_song_url_v1_retries
    (net : nat -> answer (list link_entry)) (song_id : Z)
    (quality_level : str) (t : list event)
    (nets : Z -> nat -> answer (list link_entry))
    (songs : list song_detail) (i : Z) (p : progress) :
  let r := get_song_url_v1 net song_id quality_level t in
  (requests t + 1 <= requests r.2 <= requests t + 2)%nat
  /\ (Spec.http_failure (net 0%nat) = true ->
      Spec.http_failure (net 1%nat) = true ->
      r = (None, t ++ [ESleepRandom; ERequest link_endpoint; ESleep 500;
                       ESleepRandom; ERequest link_endpoint]))
  /\ (Spec.url_missing (net 0%nat) = true ->
      r = (None, t ++ [ESleepRandom; ERequest link_endpoint]))
  /\ (let p' := process_songs nets quality_level songs i p in
      manifest p'
      = Spec.append_tracks (Spec.resolved_tracks nets quality_level songs i)
          (manifest p)
      /\ success_count p'
         = success_count p
           + Z.of_nat
               (length (Spec.resolved_tracks nets quality_level songs i))
      /\ (requests (events p) + length songs <= requests (events p'))%nat).
Proof.
  cbv zeta. rewrite (get_song_url_v1_frame net song_id quality_level t).
  split; [|split; [|split]].
  - pose proof (get_song_url_v1_requests net song_id quality_level).
    cbn [snd]. rewrite requests_app. lia.
  - intros H0 H1. by rewrite get_song_url_v1_exhausted.
  - intros H0. by rewrite get_song_url_v1_no_link.
  - apply process_songs_spec.
Qed.

Lemma get_song_url_v1_retries_witness :
  get_song_url_v1 Samples.net_link_500 186016 (u "standard") []
  = (None, [] ++ [ESleepRandom; ERequest link_endpoint; ESleep 500;
                  ESleepRandom; ERequest link_endpoint]).
Proof.
  destruct (get_song_url_v1_retries Samples.net_link_500 186016
              (u "standard") [] (fun _ => Samples.net_link_500) [] 1
              (mkProgress None 0 [])) as (_ & H & _).
  apply H; reflexivity.
Defined.

(** C6, the claim as stated fails: the first answer is well formed but
    carries no link, a second request would have obtained one, and the
    function returns [None] after that single request. *)
Lemma get_song_url_v1_no_retry_without_link :
  Spec.url_missing (Samples.net_link_late 0%nat) = true
  /\ Spec.url_missing (Samples.net_link_late 1%nat) = false
  /\ Spec.http_failure (Samples.net_link_late 1%nat) = false
  /\ get_song_url_v1 Samples.net_link_late 186016 (u "standard") []
     = (None, [ESleepRandom; ERequest link_endpoint])
  /\ requests (get_song_url_v1 Samples.net_link_late 186016
                 (u "standard") []).2 = 1%nat.
Proof. vm_compute. repeat split; reflexivity. Qed.

(** ** Metadata batches and the playlist-detail retries *)

Lemma range_step_length (n step : nat) :
  length (Fetcher.range_step n step) = ((n + step - 1) / step)%nat.
Proof. unfold range_step. by rewrite length_map, length_seq. Qed.

(** The slices at the first [m] batch starts make up the first
    [m * step] elements. *)
Lemma slices_concat {A} (l : list A) (step m : nat) :
  concat (map (fun i => slice l i step)
              (map (fun k => (k * step)%nat) (seq 0 m)))
  = take (m * step) l.
Proof.
  induction m as [|m IH].
  - reflexivity.
  - rewrite seq_S, !map_app, concat_app, IH. cbn [map concat plus].
    rewrite app_nil_r. unfold slice.
    rewrite take_take_drop. f_equal. lia.
Qed.

Lemma batches_cover {A} (l : list A) :
  concat (map (fun i => slice l i batch_size)
              (range_step (length l) batch_size)) = l.
Proof.
  unfold range_step. rewrite slices_concat. apply take_ge.
  unfold batch_size.
  pose proof (Nat.div_mod_eq (length l + 50 - 1) 50) as Hd.
  pose proof (Nat.mod_upper_bound (length l + 50 - 1) 50) as Hm. lia.
Qed.

Lemma slice_length {A} (l : list A) (i k : nat) :
  (length (slice l i k) <= k)%nat.
Proof. unfold slice. rewrite length_take. lia. Qed.

Section TracksFacts.
Variable net : nat -> list Z -> answer (list song_detail).

(** Every batch is requested once, answered or not; the songs of the
answered ones are collected in order. *)
Lemma batches_spec (song_ids : list Z) (starts : list nat) :
(forall i ids, Spec.batch_answered (net i ids) = true) ->
forall (all_songs : list song_detail) (t : list event),
exists t',
batches net song_ids starts all_songs t
= (Some (all_songs
++ concat (map (fun i => Spec.batch_songs
(net i (slice song_ids i batch_size)))
starts)),
t ++ t')
/\ requests t' = length starts.
Proof.
intros Hnet. induction starts as [|i rest IH]; intros all_songs t.
- exists []. simpl. by rewrite !app_nil_r.
- cbn [batches map concat].
specialize (Hnet i (slice song_ids i batch_size)).
unfold Spec.batch_answered in Hnet. unfold Spec.batch_songs.
destruct (net i (slice song_ids i batch_size)) as [|sc body];
[discriminate|].
destruct (sc =? 200) eqn:Hsc; simpl in *.
+ destruct body as [[code songs]|];
[|by rewrite bool_decide_eq_true in Hnet; destruct Hnet].
match goal with
| |- context [batches net song_ids rest ?a ?u] =>
destruct (IH a u) as (t' & E & R)
end.
exists ([ERequest songs_endpoint; ESleep 500] ++ t').
rewrite E. split.
* destruct (bool_decide (code = Some 200));
rewrite <- ?app_assoc; simpl; by rewrite <- ?app_assoc.
* rewrite requests_app, R. reflexivity.
+ destruct (IH all_songs (t ++ [ERequest songs_endpoint]))
as (t' & E & R).
exists ([ERequest songs_endpoint] ++ t'). rewrite E. split.
* destruct body as [[? ?]|]; by rewrite <- app_assoc.
* rewrite requests_app, R. reflexivity.
Qed.
End TracksFacts.

Section DetailFacts.
Variable net : nat -> answer (option playlist).

Lemma get_playlist_detail_requests (t : list event) :
(requests t + 1 <= requests (get_playlist_detail net t).2
<= requests t + 3)%nat.
Proof.
unfold get_playlist_detail.
change (Z.to_nat detail_max_retries) with 3%nat. cbn [detail_attempts].
change (Z.of_nat 0 <? detail_max_retries - 1) with true.
change (Z.of_nat 1 <? detail_max_retries - 1) with true.
change (Z.of_nat 2 <? detail_max_retries - 1) with false. cbv iota.
repeat case_match; simplify_eq/=; rewrite ?requests_app;
unfold requests; simpl; lia.
Qed.

Lemma detail_retryable_step (n attempt : nat) (t : list event) :
Spec.detail_retryable (net attempt) = true ->
detail_attempts net (S n) attempt t
= if Z.of_nat attempt <? detail_max_retries - 1
then detail_attempts net n (S attempt)
((t ++ [ERequest detail_endpoint]) ++ [ESleep 3000])
else (None, t ++ [ERequest detail_endpoint]).
Proof.
intros H. cbn [detail_attempts]. unfold Spec.detail_retryable in H.
destruct (net attempt) as [|sc body]; [reflexivity|].
apply andb_true_iff in H as [H H2].
apply andb_true_iff in H as [H404 H403].
apply negb_true_iff in H404, H403. rewrite H404, H403.
destruct (sc =? 200); simpl in *; [|reflexivity].
destruct body as [[code pl]|]; [|reflexivity].
apply negb_true_iff in H2. rewrite H2. reflexivity.
Qed.

Lemma get_playlist_detail_exhausted (t : list event) :
(forall i, Spec.detail_retryable (net i) = true) ->
get_playlist_detail net t
= (None, t ++ Spec.spaced_requests detail_endpoint 3000 3).
Proof.
intros H. unfold get_playlist_detail.
change (Z.to_nat detail_max_retries) with 3%nat.
rewrite !detail_retryable_step by apply H.
change (Z.of_nat 0 <? detail_max_retries - 1) with true.
change (Z.of_nat 1 <? detail_max_retries - 1) with true.
change (Z.of_nat 2 <? detail_max_retries - 1) with false. cbv iota.
simpl. by rewrite <- !app_assoc.
Qed.
End DetailFacts.

(** C7. The track identifiers are cut into consecutive batches of 50 (the
    last one may be shorter) that together make up the whole list.  As
    long as no request raises and every 200 answer decodes, each batch is
    requested exactly once, whether it succeeds or fails by its status or
    its API code: a failed batch contributes no song and the following
    batches are still fetched.  The playlist-detail step sends between one
    and three requests, and when every attempt is one it retries after, it
    sends three, 3 seconds apart, and returns nothing. *)
Theorem get_playlist_tracks_batches
    (first : answer (option playlist))
    (net : nat -> list Z -> answer (list song_detail))
    (dnet : nat -> answer (option playlist))
    (t : list event) (pl : playlist) :
  first = Answer 200 (Some (Some 200, Some pl)) ->
  trackIds pl <> [] ->
  (forall i ids, Spec.batch_answered (net i ids) = true) ->
  let ids := trackIds pl in
  let starts := range_step (length ids) batch_size in
  ((get_playlist_tracks first net t).1
   = concat (map (fun i => Spec.batch_songs (net i (slice ids i batch_size)))
                 starts)
   /\ requests (get_playlist_tracks first net t).2
      = (requests t + 1 + length starts)%nat
   /\ length starts = ((length ids + 49) / 50)%nat
   /\ concat (map (fun i => slice ids i batch_size) starts) = ids
   /\ Forall (fun i => (length (slice ids i batch_size) <= 50)%nat) starts)
  /\ (requests t + 1 <= requests (get_playlist_detail dnet t).2
      <= requests t + 3)%nat
  /\ ((forall i, Spec.detail_retryable (dnet i) = true) ->
      get_playlist_detail dnet t
      = (None, t ++ Spec.spaced_requests detail_endpoint 3000 3)).
Proof.
  intros Hfirst Hids Hnet. cbv zeta.
  split; [|split;
           [apply get_playlist_detail_requests
           |apply get_playlist_detail_exhausted]].
  destruct (batches_spec net (trackIds pl)
              (range_step (length (trackIds pl)) batch_size) Hnet []
              (t ++ [ERequest detail_endpoint])) as (t' & E & R).
  assert (Hrun : get_playlist_tracks first net t
                 = (concat (map (fun i => Spec.batch_songs
                                   (net i (slice (trackIds pl) i batch_size)))
                              (range_step (length (trackIds pl)) batch_size)),
                    (t ++ [ERequest detail_endpoint]) ++ t')).
  { unfold get_playlist_tracks. rewrite Hfirst. simpl.
    destruct (trackIds pl) as [|id ids] eqn:Hl; [done|].
    rewrite E. reflexivity. }
  rewrite Hrun. cbn [fst snd]. split; [reflexivity|]. split.
  - rewrite !requests_app, R. unfold requests at 2. simpl. lia.
  - split.
    + rewrite range_step_length. unfold batch_size. f_equal. lia.
    + split; [apply batches_cover|].
      apply Forall_forall. intros i _. apply (slice_length _ i 50).
Qed.

Lemma get_playlist_tracks_batches_witness :
  ((get_playlist_tracks
      (Answer 200 (Some (Some 200, Some Samples.playlist_120)))
      Samples.net_batches []).1
   = concat (map (fun i => Spec.batch_songs
                    (Samples.net_batches i
                       (slice (trackIds Samples.playlist_120) i batch_size)))
               (range_step (length (trackIds Samples.playlist_120))
                  batch_size))
   /\ requests (get_playlist_tracks
                  (Answer 200 (Some (Some 200, Some Samples.playlist_120)))
                  Samples.net_batches []).2
      = (requests [] + 1
         + length (range_step (length (trackIds Samples.playlist_120))
                     batch_size))%nat
   /\ length (range_step (length (trackIds Samples.playlist_120)) batch_size)
      = ((length (trackIds Samples.playlist_120) + 49) / 50)%nat
   /\ concat (map (fun i => slice (trackIds Samples.playlist_120) i batch_size)
                (range_step (length (trackIds Samples.playlist_120))
                   batch_size))
      = trackIds Samples.playlist_120
   /\ Forall (fun i => (length (slice (trackIds Samples.playlist_120) i
                                  batch_size) <= 50)%nat)
        (range_step (length (trackIds Samples.playlist_120)) batch_size))
  /\ (requests [] + 1
      <= requests (get_playlist_detail Samples.net_detail_500 []).2
      <= requests [] + 3)%nat
  /\ ((forall i, Spec.detail_retryable (Samples.net_detail_500 i) = true) ->
      get_playlist_detail Samples.net_detail_500 []
      = (None, [] ++ Spec.spaced_requests detail_endpoint 3000 3)).
Proof.
  apply (get_playlist_tracks_batches
           (Answer 200 (Some (Some 200, Some Samples.playlist_120)))
           Samples.net_batches Samples.net_detail_500 []
           Samples.playlist_120).
  - reflexivity.
  - discriminate.
  - intros i ids. unfold Samples.net_batches.
    destruct (i =? 50)%nat; reflexivity.
Defined.

(** The sample playlist of 120 tracks: three batches are requested, the
    refused middle one is dropped, and the 70 songs of the other two
    come back. *)
Example get_playlist_tracks_drops_refused_batch :
  map sd_id
    (get_playlist_tracks
       (Answer 200 (Some (Some 200, Some Samples.playlist_120)))
       Samples.net_batches []).1
  = map Z.of_nat (seq 1 50 ++ seq 101 20)
  /\ requests
       (get_playlist_tracks
          (Answer 200 (Some (Some 200, Some Samples.playlist_120)))
          Samples.net_batches []).2 = 4%nat.
Proof. vm_compute. split; reflexivity. Qed.

(** ** The summary footer *)

Import Manifest.









(** A text that stops right after a separator line is not a manifest of
    the writer; there the rewrite keeps the text and adds no footer. *)
Example update_file_summary_separator_last :
  update_file_summary 0 (u "2024-01-01 10:00:00")
    (Some (separator ++ [NL]))
  = Some (separator ++ [NL]).
Proof. vm_compute. reflexivity. Qed.

(** ** Reading the manifest back *)


(** ** The matcher *)

Import Regex.

Section RepeatFacts.
Context {A : Type}.
Variable cls : N -> bool.
Variable k : str -> str -> option A.






End RepeatFacts.

(** ** Matching one item after the other *)









(** ** Text fields and numbers *)







(** Decimal numerals. *)
Lemma uint_digits_all (d : Decimal.uint) :
  Forall (fun c => isdigit c = true) (uint_digits d).
Proof. induction d; simpl; constructor; done. Qed.

Lemma digits_value_acc (d : Decimal.uint) (acc : positive) :
  fold_left (fun a c => a * 10 + (Z.of_N c - 48)) (uint_digits d) (Z.pos acc)
  = Z.pos (Pos.of_uint_acc d acc).
Proof.
  revert acc. induction d; intros acc; simpl; try reflexivity;
    match goal with
    | |- fold_left _ _ ?z = Z.pos (Pos.of_uint_acc _ ?p) =>
        replace z with (Z.pos p) by lia; apply IHd
    end.
Qed.

Lemma digits_value_uint (d : Decimal.uint) :
  digits_value (uint_digits d) = Z.of_N (Pos.of_uint d).
Proof.
  unfold digits_value. induction d; simpl; try reflexivity;
    try exact IHd;
    match goal with
    | |- fold_left _ _ ?z = Z.pos (Pos.of_uint_acc _ ?p) =>
        replace z with (Z.pos p) by lia; apply digits_value_acc
    end.
Qed.

Lemma N_str_value (n : N) : digits_value (N_str n) = Z.of_N n.
Proof.
  unfold N_str. rewrite digits_value_uint.
  change (Pos.of_uint (N.to_uint n)) with (N.of_uint (N.to_uint n)).
  by rewrite DecimalN.Unsigned.of_to.
Qed.



(** ** The pattern on one block *)










(** ** Where no match can start *)




















(** ** Reading back what was written *)











Lemma split_absent (c : N) (s : str) :
  Forall (fun x => x <> c) s -> split c s = [s].
Proof.
  induction 1 as [|x r Hx _ IH]; [reflexivity|]. simpl.
  apply N.eqb_neq in Hx. rewrite Hx, IH. reflexivity.
Qed.








(** ** More on one download *)

Lemma sleeps_app (t1 t2 : list event) :
  Trace.sleeps (t1 ++ t2) = (Trace.sleeps t1 + Trace.sleeps t2)%nat.
Proof. unfold Trace.sleeps. by rewrite List.filter_app, length_app. Qed.

Section OneSongBounds.
Variable net : nat -> response.
Variable writable : str -> bool.
Variable s : song.
Variable max_retries : Z.

(** One attempt: at most one request, no wait, and only the target file
can change. *)
Lemma try_once_effect (filepath : str) (attempt : nat) (w : world) :
let w' := (try_once net writable s filepath attempt w).2 in
(requests (trace w') <= requests (trace w) + 1)%nat
/\ Trace.sleeps (trace w') = Trace.sleeps (trace w)
/\ forall p, p <> filepath -> files w' !! p = files w !! p.
Proof.
unfold try_once. cbv zeta.
repeat case_match; simpl; rewrite ?requests_app, ?sleeps_app;
unfold requests, Trace.sleeps; simpl;
(split; [lia | split; [lia|]]); intros path1 Hpath1;
rewrite ?lookup_insert_ne by done; reflexivity.
Qed.

Lemma attempts_effect (filepath : str) (n attempt : nat) (w : world) :
max_retries <= Z.of_nat (attempt + n) ->
let w' := (attempts net writable s max_retries filepath n attempt w).2 in
(requests (trace w') <= requests (trace w) + n)%nat
/\ (Trace.sleeps (trace w') <= Trace.sleeps (trace w) + (n - 1))%nat
/\ forall p, p <> filepath -> files w' !! p = files w !! p.
Proof.
revert attempt w. induction n as [|n IH]; intros attempt w Hn; cbv zeta.
- simpl. split; [lia | split; [lia | done]].
- cbn [attempts].
pose proof (try_once_effect filepath attempt w) as H1. cbv zeta in H1.
destruct (try_once net writable s filepath attempt w) as [ok w1].
cbn [snd] in H1. destruct H1 as (R1 & S1 & F1).
destruct ok; cbn [snd]; [split; [lia | split; [lia | done]]|].
destruct (Z.of_nat attempt <? max_retries - 1) eqn:Et; cbn [snd];
[|split; [lia | split; [lia | done]]].
apply Z.ltb_lt in Et.
assert (Hn' : max_retries <= Z.of_nat (S attempt + n)) by lia.
pose proof (IH (S attempt) (log (ESleep 2000) w1) Hn') as H2.
cbv zeta in H2. destruct H2 as (R2 & S2 & F2).
assert (Rl : requests (trace (log (ESleep 2000) w1))
       = requests (trace w1)).
{ simpl. rewrite requests_app. unfold requests at 2. simpl. lia. }
assert (Sl : Trace.sleeps (trace (log (ESleep 2000) w1))
       = S (Trace.sleeps (trace w1))).
{ simpl. rewrite sleeps_app. unfold Trace.sleeps at 2. simpl. lia. }
rewrite Rl in R2. rewrite Sl in S2.
destruct n as [|n']; [lia|].
split; [lia | split; [lia|]].
intros p Hp. rewrite F2 by done. simpl. by apply F1.
Qed.

(** Whatever the server answers and whatever the record holds,
[download_song] sends at most [max_retries] requests, waits at most
[max_retries - 1] times, and changes no file other than its
target. *)
Theorem download_song_effect (w : world) :
let w' := (download_song net writable s max_retries w).2 in
(requests (trace w') <= requests (trace w) + Z.to_nat max_retries)%nat
/\ (Trace.sleeps (trace w')
<= Trace.sleeps (trace w) + (Z.to_nat max_retries - 1))%nat
/\ forall p,
(forall filename, target_filename s = Ok filename ->
               p <> target_path filename) ->
files w' !! p = files w !! p.
Proof.
cbv zeta.
assert (Hsame : (requests (trace w)
         <= requests (trace w) + Z.to_nat max_retries)%nat
        /\ (Trace.sleeps (trace w)
            <= Trace.sleeps (trace w)
               + (Z.to_nat max_retries - 1))%nat
        /\ forall p,
             (forall filename, target_filename s = Ok filename ->
                               p <> target_path filename) ->
             files w !! p = files w !! p)
by (split; [lia | split; [lia | done]]).
assert (Hbody : let w' := (download_song_body net writable s max_retries w).2 in
  (requests (trace w') <= requests (trace w) + Z.to_nat max_retries)%nat
  /\ (Trace.sleeps (trace w')
      <= Trace.sleeps (trace w) + (Z.to_nat max_retries - 1))%nat
  /\ forall p,
       (forall filename, target_filename s = Ok filename ->
                         p <> target_path filename) ->
       files w' !! p = files w !! p).
{ cbv zeta. unfold download_song_body.
destruct (target_filename s) as [filename|]; [|exact Hsame].
assert (Ha := attempts_effect (target_path filename)
          (Z.to_nat max_retries) 0 w).
cbv zeta in Ha.
destruct (attempts _ _ _ _ _ _ _ _) as [b w1]. cbn [snd] in Ha.
assert (Hfetch : (requests (trace w1)
            <= requests (trace w) + Z.to_nat max_retries)%nat
           /\ (Trace.sleeps (trace w1)
               <= Trace.sleeps (trace w)
                  + (Z.to_nat max_retries - 1))%nat
           /\ forall p,
                (forall filename0, Ok filename = Ok filename0 ->
                                   p <> target_path filename0) ->
                files w1 !! p = files w !! p).
{ destruct Ha as (R & S & F); [simpl; lia|].
split; [exact R | split; [exact S|]]. intros p Hp. apply F.
by apply Hp. }
repeat case_match; cbn [snd]; first [exact Hsame | exact Hfetch]. }
unfold download_song.
destruct (download_song_body net writable s max_retries w) as [[b|e] w1];
exact Hbody.
Qed.
End OneSongBounds.


Section OneSongOutcomes.
Variable net : nat -> response.
Variable writable : str -> bool.
Variable s : song.
Variable max_retries : Z.

(** [k] refused attempts in a row cost [k] requests and [k] waits, and
the loop goes on. *)
Lemma attempts_refused_rounds (filepath url : str) (k : nat) :
s !! "url" = Some (VStr url) ->
forall (n attempt : nat) (w : world),
(forall i, (attempt <= i < attempt + k)%nat -> Spec.refused (net i)) ->
Z.of_nat (attempt + k) < max_retries ->
attempts net writable s max_retries filepath (k + n) attempt w
= attempts net writable s max_retries filepath n (attempt + k)
(mkWorld (files w) (trace w ++ Trace.refused_rounds url 2000 k)).
Proof.
intros Hurl. induction k as [|k IH]; intros n attempt w Hnet Hlt.
- rewrite Nat.add_0_r, app_nil_r. by destruct w.
- cbn [plus attempts]. rewrite (try_once_refused _ _ _ _ url) by
(try done; apply Hnet; lia).
replace (Z.of_nat attempt <? max_retries - 1) with true
by (symmetry; apply Z.ltb_lt; lia).
rewrite IH by (try (intros i Hi; apply Hnet); lia).
cbn [log files trace Trace.refused_rounds].
replace (S attempt + k)%nat with (attempt + S k)%nat by lia.
by rewrite <- !app_assoc.
Qed.
End OneSongOutcomes.

(** After [k] refused attempts, an attempt answered with status 200 or
    206 whose body arrives in full ends the download: the function returns
    [True], the target file holds the body, and the trace shows [k]
    requests each followed by a 2-second wait, then the request that
    succeeded and the write. *)
Theorem download_song_succeeds_after (net : nat -> response)
    (writable : str -> bool) (s : song) (max_retries : Z) (w : world)
    (filename url : str) (size : Z) (k : nat)
    (code : Z) (content_length : option str) (chunks : list (list N)) :
  target_filename s = Ok filename ->
  files w !! target_path filename = None ->
  s !! "url" = Some (VStr url) ->
  s !! "size" = Some (VInt size) ->
  Z.of_nat k < max_retries ->
  (forall i, (i < k)%nat -> Spec.refused (net i)) ->
  net k = Response code content_length chunks false ->
  code = 200 \/ code = 206 ->
  (forall h, content_length = Some h -> is_Some (py_int h)) ->
  writable (target_path filename) = true ->
  download_song net writable s max_retries w
  = (Ok true,
     mkWorld (<[target_path filename := concat chunks]> (files w))
       (trace w ++ Trace.refused_rounds url 2000 k
        ++ [ERequest url; EWrite (target_path filename)])).
Proof.
  intros Hname Hfile Hurl Hsize Hk Hnet Hgood Hcode Hcl Hw.
  unfold download_song, download_song_body. rewrite Hname, Hfile.
  replace (Z.to_nat max_retries) with (k + S (Z.to_nat max_retries - S k))%nat
    by lia.
  rewrite (attempts_refused_rounds net writable s max_retries _ url k Hurl)
    by (try (intros i Hi; apply Hnet); simpl; lia).
  cbn [attempts plus]. unfold try_once. rewrite Hurl, Hgood.
  replace ((code =? 200) || (code =? 206)) with true
    by (symmetry; destruct Hcode as [-> | ->]; reflexivity).
  unfold getitem. rewrite Hsize. cbn [mbind result_bind].
  assert (Hint : exists z,
            int_of match content_length with
                   | Some h => VStr h
                   | None => VInt size
                   end = Ok z).
  { destruct content_length as [h|]; [|by exists size].
    destruct (Hcl h eq_refl) as [z Hz]. exists z. simpl.
    unfold int_of_str. by rewrite Hz. }
  destruct Hint as [z ->]. rewrite Hw. cbn [negb].
  unfold write_file, log. cbn [files trace].
  rewrite <- !app_assoc. reflexivity.
Qed.

Lemma download_song_succeeds_after_witness :
  download_song
    (fun i => match i with
              | O => GetRaises
              | _ => Response 206 (Some (u "4")) [[1; 2]; [3; 4]]%N false
              end)
    Samples.always_writable Samples.sample_song 3 Samples.empty_world
  = (Ok true,
     mkWorld (<[target_path Samples.sample_filename
                := concat [[1; 2]; [3; 4]]%N]>
                (files Samples.empty_world))
       (trace Samples.empty_world
        ++ Trace.refused_rounds (u "http://m701.music.126.net/x.mp3") 2000 1
        ++ [ERequest (u "http://m701.music.126.net/x.mp3");
            EWrite (target_path Samples.sample_filename)])).
Proof.
  apply (download_song_succeeds_after _ Samples.always_writable
           Samples.sample_song 3 Samples.empty_world Samples.sample_filename
           (u "http://m701.music.126.net/x.mp3") 2048 1 206 (Some (u "4"))).
  - vm_compute. reflexivity.
  - vm_compute. reflexivity.
  - vm_compute. reflexivity.
  - vm_compute. reflexivity.
  - lia.
  - intros i Hi. assert (i = 0)%nat as -> by lia. by left.
  - reflexivity.
  - by right.
  - intros h [= <-]. vm_compute. eauto.
  - reflexivity.
Defined.

Section BrokenStream.
Variable writable : str -> bool.
Variable s : song.
Variable max_retries : Z.
Variable code : Z.
Variable content_length : option str.
Variable chunks : list (list N).

Lemma attempts_step (net : nat -> response) (filepath : str)
  (n attempt : nat) (w : world) :
attempts net writable s max_retries filepath (S n) attempt w
= let '(ok, w1) := try_once net writable s filepath attempt w in
  if ok then (true, w1)
  else if Z.of_nat attempt <? max_retries - 1
       then attempts net writable s max_retries filepath n (S attempt)
              (log (ESleep 2000) w1)
       else (false, w1).
Proof. reflexivity. Qed.

Lemma try_once_broken (filepath url : str) (size : Z) (attempt : nat)
  (w : world) :
s !! "url" = Some (VStr url) -> s !! "size" = Some (VInt size) ->
code = 200 \/ code = 206 ->
(forall h, content_length = Some h -> is_Some (py_int h)) ->
writable filepath = true ->
try_once (Trace.broken_net code content_length chunks) writable s
  filepath attempt w
= (false, write_file filepath (concat chunks) (log (ERequest url) w)).
Proof.
intros Hurl Hsize Hcode Hcl Hw. unfold try_once, Trace.broken_net.
rewrite Hurl.
replace ((code =? 200) || (code =? 206)) with true
  by (symmetry; destruct Hcode as [-> | ->]; reflexivity).
unfold getitem. rewrite Hsize. cbn [mbind result_bind].
assert (Hint : exists z,
          int_of match content_length with
                 | Some h => VStr h
                 | None => VInt size
                 end = Ok z).
{ destruct content_length as [h|]; [|by exists size].
  destruct (Hcl h eq_refl) as [z Hz]. exists z. simpl.
  unfold int_of_str. by rewrite Hz. }
destruct Hint as [z ->]. by rewrite Hw.
Qed.

Lemma attempts_broken (filepath url : str) (size : Z) :
s !! "url" = Some (VStr url) -> s !! "size" = Some (VInt size) ->
code = 200 \/ code = 206 ->
(forall h, content_length = Some h -> is_Some (py_int h)) ->
writable filepath = true ->
forall (n attempt : nat) (w : world),
  exists t,
    attempts (Trace.broken_net code content_length chunks) writable s
      max_retries filepath (S n) attempt w
    = (false, mkWorld (<[filepath := concat chunks]> (files w)) t).
Proof.
intros Hurl Hsize Hcode Hcl Hw. induction n as [|n IH]; intros attempt w.
- cbn [attempts]. rewrite (try_once_broken _ url size) by done.
  destruct (Z.of_nat attempt <? max_retries - 1); eexists; reflexivity.
- rewrite attempts_step, (try_once_broken _ url size) by done.
  destruct (Z.of_nat attempt <? max_retries - 1);
    [|eexists; reflexivity].
  destruct (IH (S attempt)
              (log (ESleep 2000)
                 (write_file filepath (concat chunks)
                    (log (ERequest url) w)))) as [t ->].
  eexists. cbn [files log write_file]. by rewrite insert_insert_eq.
Qed.
End BrokenStream.

(** A file that is close enough in size ends the call before any
    request. *)
Lemma download_song_close_file (net : nat -> response)
    (writable : str -> bool) (s : song) (max_retries : Z) (w : world)
    (filename : str) (content : list N) (size : Z) :
  target_filename s = Ok filename ->
  files w !! target_path filename = Some content ->
  s !! "size" = Some (VInt size) ->
  Z.abs (Z.of_nat (length content) - size) < 1024 ->
  download_song net writable s max_retries w = (Ok true, w).
Proof.
  intros Hname Hfile Hsize Hclose.
  unfold download_song, download_song_body. rewrite Hname, Hfile.
  unfold getitem. rewrite Hsize. simpl.
  apply Z.ltb_lt in Hclose. rewrite Hclose. reflexivity.
Qed.

(** A download whose stream breaks on every attempt returns [False] and
    leaves the part received in the target file.  When that part is within
    1024 bytes of the expected size, the next call for the same record
    returns [True] without sending any request. *)
Theorem download_song_accepts_partial_file
    (writable : str -> bool) (s : song) (max_retries : Z) (w : world)
    (filename url : str) (size code : Z) (content_length : option str)
    (chunks : list (list N)) :
  target_filename s = Ok filename ->
  files w !! target_path filename = None ->
  s !! "url" = Some (VStr url) ->
  s !! "size" = Some (VInt size) ->
  0 < max_retries ->
  code = 200 \/ code = 206 ->
  (forall h, content_length = Some h -> is_Some (py_int h)) ->
  writable (target_path filename) = true ->
  Z.abs (Z.of_nat (length (concat chunks)) - size) < 1024 ->
  exists w1,
    download_song (Trace.broken_net code content_length chunks) writable s
      max_retries w = (Ok false, w1)
    /\ files w1 = <[target_path filename := concat chunks]> (files w)
    /\ forall net' retries',
         download_song net' writable s retries' w1 = (Ok true, w1).
Proof.
  intros Hname Hfile Hurl Hsize Hpos Hcode Hcl Hw Hclose.
  destruct (attempts_broken writable s max_retries code content_length chunks
              (target_path filename) url size Hurl Hsize Hcode Hcl Hw
              (Z.to_nat max_retries - 1) 0 w) as [t Ha].
  replace (S (Z.to_nat max_retries - 1)) with (Z.to_nat max_retries) in Ha
    by lia.
  eexists. split; [|split].
  - unfold download_song, download_song_body. rewrite Hname, Hfile, Ha.
    reflexivity.
  - reflexivity.
  - intros net' retries'.
    apply (download_song_close_file net' writable s retries' _ filename
             (concat chunks) size); try done.
    cbn [files]. by rewrite lookup_insert_eq.
Qed.

Lemma download_song_accepts_partial_file_witness :
  exists w1,
    download_song (Trace.broken_net 200 None [[1; 2; 3]]%N)
      Samples.always_writable (<["size" := VInt 1000]> Samples.sample_song)
      3 Samples.empty_world
    = (Ok false, w1)
    /\ files w1 = <[target_path Samples.sample_filename
                    := concat [[1; 2; 3]]%N]> (files Samples.empty_world)
    /\ forall net' retries',
         download_song net' Samples.always_writable
           (<["size" := VInt 1000]> Samples.sample_song) retries' w1
         = (Ok true, w1).
Proof.
  apply (download_song_accepts_partial_file Samples.always_writable
           (<["size" := VInt 1000]> Samples.sample_song) 3
           Samples.empty_world Samples.sample_filename
           (u "http://m701.music.126.net/x.mp3") 1000 200 None
           [[1; 2; 3]]%N);
    try (vm_compute; reflexivity); try lia; try (by left);
    try discriminate.
Defined.

(** ** Records read from the manifest *)








(** ** File names once more *)

Lemma replace_illegal_idempotent (filename : str) :
  replace_illegal (replace_illegal filename) = replace_illegal filename.
Proof.
  unfold replace_illegal. rewrite map_map. apply map_ext. intros c.
  destruct (is_illegal c) eqn:E; [reflexivity | by rewrite E].
Qed.

Lemma replace_illegal_take (n : nat) (filename : str) :
  replace_illegal (take n filename) = take n (replace_illegal filename).
Proof. unfold replace_illegal. symmetry. apply firstn_map. Qed.

(** Sanitising twice changes nothing more, and a name of at most 200
    characters without any of the nine characters is left as it is. *)
Theorem sanitize_filename_idempotent (filename : str) :
  sanitize_filename (sanitize_filename filename) = sanitize_filename filename
  /\ ((length filename <= 200)%nat ->
      Forall (fun c => is_illegal c = false) filename ->
      sanitize_filename filename = filename).
Proof.
  split.
  - rewrite !sanitize_filename_take, replace_illegal_take,
      replace_illegal_idempotent, take_take. f_equal.
  - intros Hlen Hclean. rewrite sanitize_filename_take.
    rewrite take_ge by (by rewrite replace_illegal_length).
    unfold replace_illegal. rewrite <- (map_id filename) at 2.
    apply map_ext_Forall. eapply Forall_impl; [exact Hclean|].
    by intros c ->.
Qed.

Lemma digits_value_zeros (k : nat) (ds : str) :
  digits_value (times 48%N k ++ ds) = digits_value ds.
Proof.
  unfold digits_value, times. rewrite fold_left_app.
  replace (fold_left (fun acc c => acc * 10 + (Z.of_N c - 48))
             (repeat 48%N k) 0) with 0; [reflexivity|].
  induction k as [|k IH]; [reflexivity|]. simpl. exact IH.
Qed.

Lemma fmt_03d_facts (i : Z) :
  0 <= i ->
  Forall (fun c => isdigit c = true) (fmt_03d i)
  /\ digits_value (fmt_03d i) = i.
Proof.
  intros Hi. unfold fmt_03d.
  replace (i <? 0) with false by (symmetry; apply Z.ltb_ge; lia).
  split.
  - apply Forall_app. split.
    + unfold times. apply Forall_forall. intros c Hc.
      apply list_elem_of_In, repeat_spec in Hc. by subst.
    + apply uint_digits_all.
  - rewrite digits_value_zeros, N_str_value. lia.
Qed.

(** Two texts that start with digits and a dot and agree on their first
    [n] characters start with the same digits, when both runs of digits
    are shorter than [n]. *)
Lemma digit_prefix_unique (n : nat) (d1 d2 r1 r2 : str) :
  Forall (fun c => isdigit c = true) d1 ->
  Forall (fun c => isdigit c = true) d2 ->
  (length d1 < n)%nat -> (length d2 < n)%nat ->
  take n (d1 ++ DOT :: r1) = take n (d2 ++ DOT :: r2) ->
  d1 = d2.
Proof.
  intros H1. revert n d2. induction H1 as [|c d1 Hc _ IH];
    intros n d2 H2 L1 L2 E.
  - destruct d2 as [|c d2]; [reflexivity|].
    destruct n as [|n]; [simpl in L1; lia|]. simpl in E.
    injection E as E _. subst c. inversion H2 as [|? ? Hd _]. discriminate Hd.
  - destruct n as [|n]; [simpl in L1; lia|].
    destruct d2 as [|c2 d2]; simpl in E.
    + injection E as E _. subst c. discriminate Hc.
    + injection E as -> E. f_equal.
      inversion H2; subst. apply (IH n); simpl in *; try done; lia.
Qed.

Lemma replace_illegal_app (a b : str) :
  replace_illegal (a ++ b) = replace_illegal a ++ replace_illegal b.
Proof. unfold replace_illegal. apply map_app. Qed.

Lemma replace_illegal_digits (ds : str) :
  Forall (fun c => isdigit c = true) ds -> replace_illegal ds = ds.
Proof.
  intros H. unfold replace_illegal. rewrite <- (map_id ds) at 2.
  apply map_ext_Forall. eapply Forall_impl; [exact H|].
  intros c Hc. unfold isdigit in Hc. apply andb_true_iff in Hc as [H1 H2].
  apply N.leb_le in H1, H2.
  replace (is_illegal c) with false; [reflexivity|].
  symmetry. unfold is_illegal.
  repeat rewrite orb_false_iff. repeat rewrite N.eqb_neq.
  unfold LT, GT, COLON, DQUOTE, SLASH, BACKSLASH, PIPE, QUESTION, STAR.
  repeat split; lia.
Qed.

(** The sanitised name starts with the digits of the index and a dot. *)
Lemma target_filename_layout (s : song) (i : Z) (filename : str) :
  s !! "index" = Some (VInt i) -> 0 <= i ->
  target_filename s = Ok filename ->
  exists r, filename = take 200 (fmt_03d i ++ DOT :: r).
Proof.
  intros Hi Hpos H. unfold target_filename, getitem in H. rewrite Hi in H.
  simpl in H.
  destruct (s !! "name") as [v1|]; simpl in H; [|discriminate].
  destruct (s !! "artist") as [v2|]; simpl in H; [|discriminate].
  destruct (s !! "type") as [v3|]; simpl in H; [|discriminate].
  injection H as <-. rewrite sanitize_filename_take.
  destruct (fmt_03d_facts i Hpos) as [Hd _].
  rewrite replace_illegal_app, (replace_illegal_digits _ Hd).
  eexists. f_equal.
Qed.

(** Records with different indexes are stored under different paths:
    the sanitised file name starts with the digits of the index, which
    neither the replacement nor the cut at 200 characters touches. *)
Theorem target_paths_distinct (s1 s2 : song) (i1 i2 : Z)
    (f1 f2 : str) :
  s1 !! "index" = Some (VInt i1) -> s2 !! "index" = Some (VInt i2) ->
  0 <= i1 -> 0 <= i2 ->
  (length (fmt_03d i1) < 200)%nat -> (length (fmt_03d i2) < 200)%nat ->
  i1 <> i2 ->
  target_filename s1 = Ok f1 -> target_filename s2 = Ok f2 ->
  target_path f1 <> target_path f2.
Proof.
  intros H1 H2 P1 P2 L1 L2 Hne E1 E2 Heq.
  unfold target_path in Heq. apply app_inv_head in Heq.
  destruct (target_filename_layout s1 i1 f1 H1 P1 E1) as [r1 ->].
  destruct (target_filename_layout s2 i2 f2 H2 P2 E2) as [r2 ->].
  destruct (fmt_03d_facts i1 P1) as [D1 V1].
  destruct (fmt_03d_facts i2 P2) as [D2 V2].
  apply digit_prefix_unique in Heq; try done.
  apply Hne. rewrite <- V1, <- V2. by rewrite Heq.
Qed.

Lemma target_paths_distinct_witness :
  target_path Samples.sample_filename
  <> target_path (u "002. 晴天 - 周杰伦.mp3").
Proof.
  apply (target_paths_distinct Samples.sample_song
           (<["index" := VInt 2]> Samples.sample_song) 1 2).
  - vm_compute. reflexivity.
  - vm_compute. reflexivity.
  - lia.
  - lia.
  - vm_compute. lia.
  - vm_compute. lia.
  - lia.
  - vm_compute. reflexivity.
  - vm_compute. reflexivity.
Defined.

(** ** The footer on any file *)



(** ** More on the API calls *)

Lemma detail_final_retryable (a : answer (option playlist)) :
  Outcome.detail_final a = None <-> Spec.detail_retryable a = true.
Proof.
  unfold Outcome.detail_final, Spec.detail_retryable.
  destruct a as [|sc body]; [done|].
  destruct (sc =? 404) eqn:E4; simpl; [done|].
  destruct (sc =? 403) eqn:E3; simpl; [done|].
  destruct (sc =? 200) eqn:E2; simpl; [|done].
  destruct body as [[code pl]|]; [|done].
  destruct (bool_decide (code = Some 200)); simpl; split; done.
Qed.

Section DetailOutcomes.
Variable net : nat -> answer (option playlist).

Lemma detail_attempts_final (n attempt : nat) (t : list event)
  (r : option playlist) :
Outcome.detail_final (net attempt) = Some r ->
detail_attempts net (S n) attempt t
= (r, t ++ [ERequest detail_endpoint]).
Proof.
intros H. cbn [detail_attempts]. unfold Outcome.detail_final in H.
destruct (net attempt) as [|sc body]; [discriminate|].
destruct (sc =? 404) eqn:E4; simpl in H; [by injection H as <-|].
destruct (sc =? 403) eqn:E3; simpl in H; [by injection H as <-|].
destruct (sc =? 200) eqn:E2; simpl in *; [|discriminate].
destruct body as [[code pl]|]; [|discriminate].
destruct (bool_decide (code = Some 200)); [|discriminate].
by injection H as <-.
Qed.

Lemma detail_attempts_rounds (k : nat) :
forall (n attempt : nat) (t : list event),
  (forall i, (attempt <= i < attempt + k)%nat ->
             Outcome.detail_final (net i) = None) ->
  Z.of_nat (attempt + k) < detail_max_retries ->
  detail_attempts net (k + n) attempt t
  = detail_attempts net n (attempt + k)
      (t ++ Trace.refused_rounds detail_endpoint 3000 k).
Proof.
induction k as [|k IH]; intros n attempt t Hnet Hlt.
- by rewrite Nat.add_0_r, app_nil_r.
- change (S k + n)%nat with (S (k + n)).
  rewrite detail_retryable_step
    by (apply detail_final_retryable, Hnet; lia).
  replace (Z.of_nat attempt <? detail_max_retries - 1) with true
    by (symmetry; apply Z.ltb_lt; lia).
  rewrite IH by (try (intros i Hi; apply Hnet); lia).
  replace (S attempt + k)%nat with (attempt + S k)%nat by lia.
  cbn [Trace.refused_rounds]. by rewrite <- !app_assoc.
Qed.
End DetailOutcomes.

(** [get_playlist_detail] stops at the first attempt that is decisive: a
    status of 404 or 403 gives [None] at once, without a retry, and a
    status of 200 with API code 200 gives the playlist object (or [None]
    when that object is empty).  Before it, every attempt cost one request
    and a 3-second wait. *)
Theorem get_playlist_detail_stops_at
    (net : nat -> answer (option playlist)) (t : list event) (k : nat)
    (r : option playlist) :
  (k < 3)%nat ->
  (forall i, (i < k)%nat -> Outcome.detail_final (net i) = None) ->
  Outcome.detail_final (net k) = Some r ->
  get_playlist_detail net t
  = (r, t ++ Trace.refused_rounds detail_endpoint 3000 k
          ++ [ERequest detail_endpoint]).
Proof.
  intros Hk Hnet Hfinal. unfold get_playlist_detail.
  change (Z.to_nat detail_max_retries) with 3%nat.
  replace 3%nat with (k + S (2 - k))%nat by lia.
  rewrite detail_attempts_rounds
    by (try (intros i Hi; apply Hnet); unfold detail_max_retries; lia).
  rewrite (detail_attempts_final net _ _ _ r) by done.
  by rewrite <- app_assoc.
Qed.

Lemma get_playlist_detail_stops_at_witness :
  get_playlist_detail
    (fun i => match i with
              | O => Answer 500 None
              | _ => Answer 404 None
              end) []
  = (None, [] ++ Trace.refused_rounds detail_endpoint 3000 1
               ++ [ERequest detail_endpoint]).
Proof.
  apply (get_playlist_detail_stops_at _ [] 1 None).
  - lia.
  - intros i Hi. assert (i = 0)%nat as -> by lia. reflexivity.
  - reflexivity.
Defined.

Section TracksMore.
Variable net : nat -> list Z -> answer (list song_detail).

Lemma batches_app (song_ids : list Z) (l1 l2 : list nat) :
forall (all_songs : list song_detail) (t : list event),
  batches net song_ids (l1 ++ l2) all_songs t
  = match batches net song_ids l1 all_songs t with
    | (Some songs, t') => batches net song_ids l2 songs t'
    | (None, t') => (None, t')
    end.
Proof.
induction l1 as [|i l1 IH]; intros all_songs t; [reflexivity|].
cbn [app batches].
destruct (net i (slice song_ids i batch_size)) as [|sc body];
  [reflexivity|].
destruct (negb (sc =? 200)); [apply IH|].
destruct body as [[code songs]|]; [apply IH | reflexivity].
Qed.

(** The batches of a list of starts all of which are answered. *)
Lemma batches_answered (song_ids : list Z) (starts : list nat) :
Forall (fun i => Spec.batch_answered
                   (net i (slice song_ids i batch_size)) = true) starts ->
forall (all_songs : list song_detail) (t : list event),
exists songs t',
  batches net song_ids starts all_songs t = (Some songs, t ++ t')
  /\ requests t' = length starts.
Proof.
induction 1 as [|i rest Hi _ IH]; intros all_songs t.
- exists all_songs, []. simpl. by rewrite app_nil_r.
- cbn [batches]. unfold Spec.batch_answered in Hi.
  destruct (net i (slice song_ids i batch_size)) as [|sc body];
    [discriminate|].
  destruct (sc =? 200) eqn:Hsc; simpl in *.
  + destruct body as [[code songs]|];
      [|by rewrite bool_decide_eq_true in Hi; destruct Hi].
    match goal with
    | |- context [batches net song_ids rest ?a ?u] =>
        destruct (IH a u) as (songs' & t' & E & R)
    end.
    exists songs', ([ERequest songs_endpoint; ESleep 500] ++ t').
    rewrite E. split.
    * by rewrite <- !app_assoc.
    * rewrite requests_app, R. reflexivity.
  + destruct (IH all_songs (t ++ [ERequest songs_endpoint]))
      as (songs' & t' & E & R).
    exists songs', ([ERequest songs_endpoint] ++ t'). rewrite E. split.
    * by rewrite <- app_assoc.
    * rewrite requests_app, R. reflexivity.
Qed.
End TracksMore.

(** One batch request that raises, or whose 200 answer does not decode,
    empties the whole result of [get_playlist_tracks]: the songs of the
    batches fetched before it are discarded, and the batches after it are
    never requested. *)
Theorem get_playlist_tracks_discards_on_exception
    (first : answer (option playlist))
    (net : nat -> list Z -> answer (list song_detail))
    (t : list event) (pl : playlist) (before after : list nat) (i : nat) :
  first = Answer 200 (Some (Some 200, Some pl)) ->
  range_step (length (trackIds pl)) batch_size = before ++ i :: after ->
  Forall (fun j => Spec.batch_answered
                     (net j (slice (trackIds pl) j batch_size)) = true)
         before ->
  net i (slice (trackIds pl) i batch_size) = Raises
  \/ net i (slice (trackIds pl) i batch_size) = Answer 200 None ->
  (get_playlist_tracks first net t).1 = []
  /\ requests (get_playlist_tracks first net t).2
     = (requests t + 1 + length before + 1)%nat.
Proof.
  intros Hfirst Hstarts Hbefore Hraise.
  unfold get_playlist_tracks. rewrite Hfirst. simpl.
  destruct (trackIds pl) as [|id ids] eqn:Hids.
  { exfalso. simpl in Hstarts. by destruct before. }
  rewrite Hstarts, batches_app.
  destruct (batches_answered net (id :: ids) before Hbefore []
              (t ++ [ERequest detail_endpoint])) as (songs & t' & E & R).
  rewrite E. cbn [batches].
  assert (Hone : requests [ERequest songs_endpoint] = 1%nat) by reflexivity.
  assert (Hd : requests [ERequest detail_endpoint] = 1%nat) by reflexivity.
  destruct Hraise as [-> | ->]; simpl;
    rewrite !requests_app, R, Hone, Hd; split; (reflexivity || lia).
Qed.

Lemma get_playlist_tracks_discards_on_exception_witness :
  (get_playlist_tracks
     (Answer 200 (Some (Some 200, Some Samples.playlist_120)))
     (fun start ids =>
        if (start =? 100)%nat then Raises
        else Answer 200 (Some (Some 200, map Samples.detail_of ids)))
     []).1 = []
  /\ requests
       (get_playlist_tracks
          (Answer 200 (Some (Some 200, Some Samples.playlist_120)))
          (fun start ids =>
             if (start =? 100)%nat then Raises
             else Answer 200 (Some (Some 200, map Samples.detail_of ids)))
          []).2
     = (requests [] + 1 + length [0; 50]%nat + 1)%nat.
Proof.
  apply (get_playlist_tracks_discards_on_exception _ _ []
           Samples.playlist_120 [0; 50]%nat [] 100).
  - reflexivity.
  - vm_compute. reflexivity.
  - repeat constructor.
  - by left.
Defined.

(** After [k] failures at the HTTP or API level (at most one, since two
    exhaust the attempts), an answer whose first entry carries a link
    makes [get_song_url_v1] return that link with the quality asked for,
    the song identifier, and the bit rate, size and type of the entry,
    0 and the empty text standing for the ones that are missing. *)
Theorem get_song_url_v1_resolves
    (net : nat -> answer (list link_entry)) (song_id : Z)
    (quality_level : str) (t : list event) (k : nat)
    (entry : link_entry) (others : list link_entry) (c : N) (url : str) :
  (k < 2)%nat ->
  (forall i, (i < k)%nat -> Spec.http_failure (net i) = true) ->
  net k = Answer 200 (Some (Some 200, entry :: others)) ->
  le_url entry = Some (c :: url) ->
  get_song_url_v1 net song_id quality_level t
  = (Some (Outcome.info_of entry (c :: url) quality_level song_id),
     t ++ Outcome.link_rounds k ++ [ESleepRandom; ERequest link_endpoint]).
Proof.
  intros Hk Hfail Hnet Hurl.
  rewrite get_song_url_v1_frame. unfold get_song_url_v1.
  change (Z.to_nat url_max_retries) with 2%nat.
  destruct k as [|[|k]]; [| |lia].
  - cbn [url_attempts]. rewrite Hnet. simpl. rewrite Hurl. reflexivity.
  - specialize (Hfail 0%nat). unfold Spec.http_failure in Hfail.
    cbn [url_attempts]. rewrite Hnet.
    change (Z.of_nat 0 <? url_max_retries - 1) with true. cbv iota.
    destruct (net 0%nat) as [|sc [[code [|e0 d0]]|]];
      simpl in *; rewrite ?Hurl;
      try reflexivity;
      try (destruct (sc =? 200); simpl in *; try reflexivity;
           destruct (bool_decide (code = Some 200)); simpl in *;
           try reflexivity; specialize (Hfail ltac:(lia)); discriminate).
Qed.

Lemma get_song_url_v1_resolves_witness :
  get_song_url_v1
    (fun i => match i with
              | O => Answer 500 None
              | _ => Answer 200
                       (Some (Some 200,
                              [mkLinkEntry (Some (104%N :: u "ttp://x/y.mp3"))
                                 (Some 128000) None (Some (u "mp3"))]))
              end) 186016 (u "standard") []
  = (Some (Outcome.info_of
             (mkLinkEntry (Some (104%N :: u "ttp://x/y.mp3"))
                (Some 128000) None (Some (u "mp3")))
             (104%N :: u "ttp://x/y.mp3") (u "standard") 186016),
     [] ++ Outcome.link_rounds 1 ++ [ESleepRandom; ERequest link_endpoint]).
Proof.
  apply (get_song_url_v1_resolves
           (fun i => match i with
                     | O => Answer 500 None
                     | _ => Answer 200
                              (Some (Some 200,
                                     [mkLinkEntry
                                        (Some (104%N :: u "ttp://x/y.mp3"))
                                        (Some 128000) None
                                        (Some (u "mp3"))]))
                     end)
           186016 (u "standard") [] 1
           (mkLinkEntry (Some (104%N :: u "ttp://x/y.mp3"))
              (Some 128000) None (Some (u "mp3")))
           [] 104%N (u "ttp://x/y.mp3")).
  - lia.
  - intros i Hi. assert (i = 0)%nat as -> by lia. reflexivity.
  - reflexivity.
  - reflexivity.
Defined.

(** ** Reading back a finished manifest *)














(** ** One playlist run *)

Lemma quality_of_level (choice level : str) :
  Playlist.quality_of choice = Some level ->
  exists d : N,
    choice = [d] /\ (49 <= d <= 57)%N
    /\ Playlist.quality_levels !! N.to_nat (d - 49) = Some ([d], level).
Proof.
  unfold Playlist.quality_of, Playlist.quality_levels, str_eqb.
  cbn [List.find fst snd].
  repeat (case_bool_decide as E;
          [ intros [= <-]; subst choice; eexists;
            split; [vm_compute; reflexivity|];
            split; [lia | vm_compute; reflexivity] | clear E ]).
  discriminate.
Qed.

Lemma quality_of_digit (d : N) :
  (49 <= d <= 57)%N ->
  exists level,
    Playlist.quality_of [d] = Some level
    /\ Playlist.quality_levels !! N.to_nat (d - 49) = Some ([d], level).
Proof.
  intros Hd.
  assert (H : (d = 49 \/ d = 50 \/ d = 51 \/ d = 52 \/ d = 53 \/ d = 54
               \/ d = 55 \/ d = 56 \/ d = 57)%N) by lia.
  repeat destruct H as [-> | H]; try subst d;
    eexists; split; reflexivity.
Qed.

Lemma select_quality_inv (stdin : list str) (level : str) (rest : list str) :
  Playlist.select_quality stdin = Some (level, rest) ->
  exists skipped answer,
    stdin = skipped ++ answer :: rest
    /\ Forall (fun l => Playlist.quality_of (strip l) = None) skipped
    /\ Playlist.quality_of (strip answer) = Some level.
Proof.
  induction stdin as [|line more IH]; [discriminate|].
  cbn [Playlist.select_quality].
  destruct (Playlist.quality_of (strip line)) as [q|] eqn:E.
  - intros [= <- <-]. exists [], line. by repeat split.
  - intros H. destruct (IH H) as (skipped & answer & -> & Hs & Ha).
    exists (line :: skipped), answer. split; [reflexivity|].
    split; [by constructor | done].
Qed.

Lemma select_quality_none (stdin : list str) :
  Playlist.select_quality stdin = None ->
  Forall (fun l => Playlist.quality_of (strip l) = None) stdin.
Proof.
  induction stdin as [|line more IH]; [constructor|].
  cbn [Playlist.select_quality].
  destruct (Playlist.quality_of (strip line)) eqn:E; [discriminate|].
  intros H. constructor; [done | by apply IH].
Qed.

(** [select_quality] skips every answer that, stripped, is not one of
    the digits 1 to 9, returns the level listed for the first answer that
    is, and leaves the lines after it unread; when no line qualifies the
    input runs out. *)
Theorem select_quality_first_valid (stdin : list str) :
  match Playlist.select_quality stdin with
  | Some (level, rest) =>
      exists skipped answer d,
        stdin = skipped ++ answer :: rest
        /\ Forall (fun l => forall c, strip l = [c] -> ~ (49 <= c <= 57)%N)
             skipped
        /\ strip answer = [d] /\ (49 <= d <= 57)%N
        /\ Playlist.quality_levels !! N.to_nat (d - 49) = Some ([d], level)
  | None =>
      Forall (fun l => forall c, strip l = [c] -> ~ (49 <= c <= 57)%N) stdin
  end.
Proof.
  assert (Hbad : forall l : list str,
             Forall (fun l => Playlist.quality_of (strip l) = None) l ->
             Forall (fun l => forall c, strip l = [c] -> ~ (49 <= c <= 57)%N)
               l).
  { intros l Hl. eapply Forall_impl; [exact Hl|]. intros line Hn c Hc Hr.
    destruct (quality_of_digit c Hr) as (level & Hq & _).
    cbv beta in Hn. rewrite Hc in Hn. congruence. }
  destruct (Playlist.select_quality stdin) as [[level rest]|] eqn:E.
  - destruct (select_quality_inv _ _ _ E) as (skipped & answer & -> & Hs & Ha).
    destruct (quality_of_level _ _ Ha) as (d & Hd & Hr & Hl).
    exists skipped, answer, d. repeat split; try done; try lia.
    by apply Hbad.
  - by apply Hbad, select_quality_none.
Qed.

(** *** Traces of the calls that make up a run *)

Section DetailFrame.
Variable net : nat -> answer (option playlist).

Lemma detail_attempts_frame (n attempt : nat) (t : list event) :
detail_attempts net n attempt t
= ((detail_attempts net n attempt []).1,
   t ++ (detail_attempts net n attempt []).2).
Proof.
revert attempt t. induction n as [|n IH]; intros attempt t.
- simpl. by rewrite app_nil_r.
- cbn [detail_attempts].
  assert (Hretry :
    (if Z.of_nat attempt <? detail_max_retries - 1
     then detail_attempts net n (S attempt)
            ((t ++ [ERequest detail_endpoint]) ++ [ESleep 3000])
     else (None, t ++ [ERequest detail_endpoint]))
    = ((if Z.of_nat attempt <? detail_max_retries - 1
        then detail_attempts net n (S attempt)
               (([] ++ [ERequest detail_endpoint]) ++ [ESleep 3000])
        else (None, [] ++ [ERequest detail_endpoint])).1,
       t ++ (if Z.of_nat attempt <? detail_max_retries - 1
             then detail_attempts net n (S attempt)
                    (([] ++ [ERequest detail_endpoint]) ++ [ESleep 3000])
             else (None, [] ++ [ERequest detail_endpoint])).2)).
  { destruct (Z.of_nat attempt <? detail_max_retries - 1).
    - rewrite (IH _ ((t ++ _) ++ [ESleep 3000])).
      rewrite (IH _ (([] ++ _) ++ [ESleep 3000])). simpl.
      by rewrite <- !app_assoc.
    - reflexivity. }
  repeat case_match; simplify_eq/=; try apply Hretry; reflexivity.
Qed.

Lemma get_playlist_detail_frame (t : list event) :
get_playlist_detail net t
= ((get_playlist_detail net []).1,
   t ++ (get_playlist_detail net []).2).
Proof. apply detail_attempts_frame. Qed.

End DetailFrame.

Section TracksFrame.
Variable first : answer (option playlist).
Variable net : nat -> list Z -> answer (list song_detail).

Lemma batches_frame (song_ids : list Z) (starts : list nat) :
forall (all_songs : list song_detail) (t : list event),
  batches net song_ids starts all_songs t
  = ((batches net song_ids starts all_songs []).1,
     t ++ (batches net song_ids starts all_songs []).2).
Proof.
induction starts as [|i rest IH]; intros all_songs t.
- simpl. by rewrite app_nil_r.
- cbn [batches].
  destruct (net i (slice song_ids i batch_size)) as [|sc body];
    [reflexivity|].
  destruct (negb (sc =? 200)).
  + rewrite (IH _ (t ++ _)), (IH _ ([] ++ _)). simpl.
    by rewrite <- !app_assoc.
  + destruct body as [[code songs]|]; [|reflexivity].
    rewrite (IH _ ((t ++ _) ++ _)), (IH _ (([] ++ _) ++ _)). simpl.
    by rewrite <- !app_assoc.
Qed.

(** One request per batch start at most. *)
Lemma batches_requests (song_ids : list Z) (starts : list nat) :
forall (all_songs : list song_detail),
  (requests (batches net song_ids starts all_songs []).2
   <= length starts)%nat.
Proof.
induction starts as [|i rest IH]; intros all_songs;
  [unfold requests; simpl; lia|].
cbn [batches].
destruct (net i (slice song_ids i batch_size)) as [|sc body];
  [unfold requests; simpl; lia|].
destruct (negb (sc =? 200)).
- rewrite batches_frame. cbn [snd]. rewrite requests_app.
  specialize (IH all_songs). unfold requests in *. simpl in *. lia.
- destruct body as [[code songs]|]; [|unfold requests; simpl; lia].
  rewrite batches_frame. cbn [snd]. rewrite requests_app.
  match goal with
  | |- context [batches net song_ids rest ?a []] => specialize (IH a)
  end.
  unfold requests in *. simpl in *. lia.
Qed.

Lemma get_playlist_tracks_frame (t : list event) :
get_playlist_tracks first net t
= ((get_playlist_tracks first net []).1,
   t ++ (get_playlist_tracks first net []).2).
Proof.
unfold get_playlist_tracks.
destruct first as [|sc [[code pl]|]];
  [reflexivity | | by destruct (negb (sc =? 200))].
destruct (negb (sc =? 200)); [reflexivity|].
destruct (negb (bool_decide (code = Some 200))); [reflexivity|].
destruct (match pl with Some p => trackIds p | None => [] end)
  as [|id ids]; [reflexivity|].
rewrite (batches_frame _ _ _ (t ++ _)), (batches_frame _ _ _ ([] ++ _)).
destruct (batches net (id :: ids)
            (range_step (length (id :: ids)) batch_size) [] []).1;
  simpl; by rewrite <- !app_assoc.
Qed.

(** The detail request, and one request per batch of fifty listed
  identifiers at most. *)
Lemma get_playlist_tracks_requests :
(requests (get_playlist_tracks first net []).2
 <= 1 + (length (Playlist.listed_ids first) + 49) / 50)%nat.
Proof.
unfold get_playlist_tracks, Playlist.listed_ids.
destruct first as [|sc [[code pl]|]];
  [ unfold requests; simpl; lia | 
  | destruct (negb (sc =? 200)); unfold requests; simpl; lia ].
destruct (sc =? 200); [|unfold requests; simpl; lia]. cbn [negb andb].
destruct (bool_decide (code = Some 200));
  [|destruct pl; unfold requests; simpl; lia].
cbn [negb].
destruct pl as [pl|]; [|unfold requests; simpl; lia].
destruct (trackIds pl) as [|id ids] eqn:E; [unfold requests; simpl; lia|].
rewrite batches_frame.
pose proof (batches_requests (id :: ids)
              (range_step (length (id :: ids)) batch_size) []) as H.
rewrite range_step_length in H.
set (b := ((length (id :: ids) + 49) / 50)%nat) in *.
replace ((length (id :: ids) + batch_size - 1) / batch_size)%nat
  with b in H by (unfold b, batch_size; f_equal; lia).
destruct (batches net (id :: ids)
            (range_step (length (id :: ids)) batch_size) [] [])
  as [[songs|] t']; cbn [fst snd] in *;
  rewrite requests_app;
  change (requests ([] ++ [ERequest detail_endpoint])) with 1%nat; lia.
Qed.

End TracksFrame.

(** The loop adds its events after those already there: two requests per
    track at most. *)
Lemma process_songs_events
    (nets : Z -> nat -> answer (list link_entry)) (quality_level : str)
    (songs : list song_detail) :
  forall (i : Z) (p : progress),
  exists t',
    events (process_songs nets quality_level songs i p) = events p ++ t'
    /\ (requests t' <= 2 * length songs)%nat.
Proof.
  induction songs as [|song rest IH]; intros i p.
  - exists []. simpl. split; [by rewrite app_nil_r | unfold requests; simpl; lia].
  - cbn [process_songs].
    rewrite (get_song_url_v1_frame (nets i) (sd_id song) quality_level
               (events p)).
    pose proof (get_song_url_v1_requests (nets i) (sd_id song) quality_level)
      as [_ Hreq].
    destruct (get_song_url_v1 (nets i) (sd_id song) quality_level [])
      as [[info|] t]; cbn [fst snd] in *;
      match goal with
      | |- context [process_songs _ _ rest (i + 1) ?q] =>
          destruct (IH (i + 1) q) as (t' & E & R)
      end;
      rewrite E; cbn [events];
      exists (t ++ [ESleep 500] ++ t');
      (split; [by rewrite <- !app_assoc|]);
      rewrite !requests_app;
      change (requests [ESleep 500]) with 0%nat;
      cbn [length]; lia.
Qed.

(** *** Positions and levels of the resolved tracks *)




(** *** The run *)


(** A run only adds to the trace, and what it adds holds at most three
    requests for the playlist, one for the list of identifiers, one per
    batch of fifty identifiers and two per track; nothing is requested
    when no identifier can be read from the input. *)
Theorem process_playlist_request_budget
    (netloc_valid : str -> bool) (unquote_escaped : str -> str)
    (srv : Playlist.servers) (started finished playlist_url_or_id : str)
    (s : Playlist.state) :
  let songs :=
    (get_playlist_tracks (Playlist.first srv) (Playlist.batch srv) []).1 in
  exists t',
    Playlist.trace
      (Playlist.final
         (Playlist.process_playlist netloc_valid unquote_escaped srv
            started finished playlist_url_or_id s))
    = Playlist.trace s ++ t'
    /\ (requests t'
        <= 3 + 1 + (length (Playlist.listed_ids (Playlist.first srv)) + 49) / 50
           + 2 * length songs)%nat
    /\ (default [] (Resolver.extract_playlist_id netloc_valid
                      unquote_escaped playlist_url_or_id) = []
        -> t' = []).
Proof.
  cbv zeta. unfold Playlist.process_playlist.
  destruct (Resolver.extract_playlist_id _ _ _) as [[|c id]|];
    cbn [default from_option Playlist.final Playlist.trace];
    [ exists []; rewrite app_nil_r;
      (split; [reflexivity|]); (split; [|done]); unfold requests; simpl; lia
    |
    | exists []; rewrite app_nil_r;
      (split; [reflexivity|]); (split; [|done]); unfold requests; simpl; lia ].
  rewrite get_playlist_detail_frame.
  pose proof (get_playlist_detail_requests (Playlist.detail srv) [])
    as [_ Hd].
  change (requests []) with 0%nat in Hd.
  destruct (get_playlist_detail (Playlist.detail srv) []) as [[pl|] t1];
    cbn [fst snd] in *.
  2:{ exists t1. cbn [Playlist.final Playlist.trace].
      split; [reflexivity|]. split; [lia | discriminate]. }
  rewrite get_playlist_tracks_frame.
  pose proof (get_playlist_tracks_requests (Playlist.first srv)
                (Playlist.batch srv)) as Ht.
  destruct (get_playlist_tracks (Playlist.first srv) (Playlist.batch srv) [])
    as [songs t2]; cbn [fst snd] in *.
  assert (Hbase : (requests (t1 ++ t2)
                   <= 3 + 1 + (length (Playlist.listed_ids
                                         (Playlist.first srv)) + 49) / 50)%nat).
  { rewrite requests_app. lia. }
  destruct songs as [|song songs].
  { exists (t1 ++ t2). cbn [Playlist.final Playlist.trace].
    split; [by rewrite app_assoc|]. split; [lia | discriminate]. }
  destruct (Playlist.select_quality (Playlist.stdin s))
    as [[quality_level rest]|].
  2:{ exists (t1 ++ t2). cbn [Playlist.final Playlist.trace].
      split; [by rewrite app_assoc|]. split; [lia | discriminate]. }
  cbn [Playlist.final Playlist.trace].
  match goal with
  | |- context [process_songs ?n ?q ?l 1 ?p] =>
      destruct (process_songs_events n q l 1 p) as (t3 & E & R)
  end.
  rewrite E. cbn [events]. exists (t1 ++ t2 ++ t3).
  split; [by rewrite <- !app_assoc|]. split; [|discriminate].
  rewrite app_assoc, requests_app. lia.
Qed.




(** In that run the first track gets no link: the manifest lists the
    second one alone, at position 2, and the summary counts one. *)
Lemma playlist_run_example :
  map Spec.fields_of
    (parse_list_file
       (Playlist.list_txt
          (Playlist.final
             (Playlist.process_playlist (fun _ => true) (fun x => x)
                Scenario.srv (u "2024-01-01 10:00:00")
                (u "2024-01-01 10:05:00") (u "24381616") Scenario.start))))
  = [ [Some (VInt 2); Some (VStr (u "song")); Some (VStr (u "artist"));
       Some (VStr (u "186017")); Some (VStr (u "lossless"));
       Some (VInt 999000);
       Some (VStr (u "http://m701.music.126.net/x.flac"));
       Some (VInt 31457280); Some (VStr (u "flac"))] ].
Proof. vm_compute. reflexivity. Qed.

(** ** The forms of a playlist link *)

Lemma split1_app_found (c : N) (a b x y : str) :
  split1 c a = Some (x, y) -> split1 c (a ++ b) = Some (x, y ++ b).
Proof.
  revert x y. induction a as [|h a IH]; intros x y; [discriminate|].
  cbn [app split1]. destruct (h =? c)%N.
  - by intros [= <- <-].
  - destruct (split1 c a) as [[x' y']|]; [|discriminate].
    intros [= <- <-]. by rewrite (IH x' y' eq_refl).
Qed.

Lemma split1_app_absent (c : N) (a b : str) :
  split1 c a = None -> split1 c b = None -> split1 c (a ++ b) = None.
Proof.
  intros Ha Hb. induction a as [|h a IH]; [exact Hb|].
  cbn [app split1] in *. destruct (h =? c)%N; [discriminate|].
  destruct (split1 c a) as [[x y]|]; [discriminate|]. by rewrite IH.
Qed.

Lemma split_nonempty (c : N) (a : str) : split c a <> [].
Proof.
  destruct a as [|h a]; [discriminate|]. cbn [split].
  destruct (h =? c)%N; [discriminate|]. destruct (split c a); discriminate.
Qed.

Lemma split_app_absent (c : N) (a b : str) :
  Forall (fun x => x <> c) b ->
  split c (a ++ b)
  = removelast (split c a) ++ [List.last (split c a) [] ++ b].
Proof.
  intros Hb. induction a as [|h a IH].
  - cbn [app split removelast List.last]. by rewrite split_absent.
  - cbn [app split]. destruct (h =? c)%N.
    + rewrite IH. pose proof (split_nonempty c a) as Hne.
      destruct (split c a) eqn:E; [done|]. reflexivity.
    + rewrite IH. pose proof (split_nonempty c a) as Hne.
      destruct (split c a) as [|p [|q ps]] eqn:E; [done|reflexivity..].
Qed.

Lemma startswith_app (p a b : str) :
  startswith p a = true -> startswith p (a ++ b) = true.
Proof.
  revert a. induction p as [|x p IH]; intros a; [done|].
  destruct a as [|y a]; [done|]. cbn [app startswith].
  intros H. apply andb_true_iff in H as [-> H]. by rewrite IH.
Qed.

Lemma contains_app (p a b : str) :
  contains p a = true -> contains p (a ++ b) = true.
Proof.
  induction a as [|y a IH].
  - cbn [contains]. rewrite orb_false_r. intros H.
    destruct p; [by destruct b | done].
  - cbn [app contains]. intros H. apply orb_true_iff in H as [H|H].
    + pose proof (startswith_app p (y :: a) b H) as H'.
      cbn [app] in H'. by rewrite H'.
    + rewrite (IH H). apply orb_true_r.
Qed.

(** *** Texts made of digits *)

Section Digits.
Variable id : str.
Hypothesis Hid : Forall (fun c => isdigit c = true) id.

Lemma digits_differ (c : N) :
isdigit c = false -> Forall (fun x => x <> c) id.
Proof.
intros Hc. eapply Forall_impl; [exact Hid|].
intros x Hx ->. congruence.
Qed.

Lemma digits_split1 (c : N) : isdigit c = false -> split1 c id = None.
Proof.
intros Hc. pose proof (digits_differ c Hc) as H.
induction H as [|x r Hx _ IH]; [reflexivity|].
cbn [split1]. apply N.eqb_neq in Hx. rewrite Hx.
rewrite IH; [reflexivity|]. by inversion Hid.
Qed.

Lemma digits_has (c : N) : isdigit c = false -> has c id = false.
Proof.
intros Hc. pose proof (digits_differ c Hc) as H. unfold has.
induction H as [|x r Hx _ IH]; [reflexivity|].
cbn [existsb]. rewrite IH by (by inversion Hid).
rewrite orb_false_r. apply N.eqb_neq. congruence.
Qed.

Lemma digits_remove_unsafe : Urllib.remove_unsafe id = id.
Proof.
unfold Urllib.remove_unsafe.
induction Hid as [|x r Hx Hr IH]; [reflexivity|].
rewrite filter_cons_True, IH; [reflexivity | by inversion Hid |].
unfold isdigit in Hx. apply andb_true_iff in Hx as [H1 H2].
apply N.leb_le in H1, H2.
rewrite negb_true_iff, !orb_false_iff, !N.eqb_neq. lia.
Qed.

Lemma digits_plus_to_space : Urllib.plus_to_space id = id.
Proof.
unfold Urllib.plus_to_space.
induction Hid as [|x r Hx Hr IH]; [reflexivity|].
cbn [map]. rewrite IH by (by inversion Hid).
replace (x =? PLUS)%N with false; [reflexivity|].
symmetry. apply N.eqb_neq. intros ->. discriminate Hx.
Qed.

Lemma digits_no_word : contains (u "playlist") id = false.
Proof.
induction Hid as [|x r Hx Hr IH]; [reflexivity|].
cbn [contains]. rewrite IH by (by inversion Hid). rewrite orb_false_r.
change (u "playlist") with (112%N :: u "laylist"). cbn [startswith].
replace (112 =? x)%N with false; [reflexivity|].
symmetry. apply N.eqb_neq. intros <-. discriminate Hx.
Qed.

End Digits.

Lemma lstrip_c0_length (s : str) :
  (length (Urllib.lstrip_c0 s) <= length s)%nat.
Proof.
  induction s as [|c r IH]; [done|]. cbn [Urllib.lstrip_c0].
  destruct (c <=? 32)%N; simpl; lia.
Qed.

Lemma lstrip_c0_app (a b : str) :
  a <> [] -> Urllib.lstrip_c0 a = a -> Urllib.lstrip_c0 (a ++ b) = a ++ b.
Proof.
  destruct a as [|c r]; [done|]. intros _. cbn [app Urllib.lstrip_c0].
  destruct (c <=? 32)%N; [|done].
  intros H. pose proof (lstrip_c0_length r) as Hl. rewrite H in Hl.
  simpl in Hl. lia.
Qed.

Lemma split_scheme_app (a b : str) :
  has COLON a = true ->
  Urllib.split_scheme (a ++ b)
  = ((Urllib.split_scheme a).1, (Urllib.split_scheme a).2 ++ b).
Proof.
  intros Ha. unfold Urllib.split_scheme.
  assert (exists x y, split1 COLON a = Some (x, y)) as (x & y & E).
  { clear b. unfold has in Ha. induction a as [|h a IH]; [discriminate|].
    cbn [existsb split1] in *. rewrite N.eqb_sym in Ha.
    destruct (h =? COLON)%N; [by eexists _, _|].
    destruct (IH Ha) as (x & y & ->). by eexists _, _. }
  rewrite (split1_app_found _ _ b _ _ E), E.
  destruct x as [|c pre]; [reflexivity|].
  destruct (Urllib.is_ascii_alpha c && forallb Urllib.is_scheme_char (c :: pre));
    reflexivity.
Qed.

Lemma splitnetloc_app (a b n r : str) (c : N) :
  Urllib.splitnetloc a = (n, c :: r) ->
  Urllib.splitnetloc (a ++ b) = (n, c :: r ++ b).
Proof.
  revert n. induction a as [|h a IH]; intros n; [discriminate|].
  cbn [app Urllib.splitnetloc].
  destruct ((h =? SLASH) || (h =? QUESTION) || (h =? HASH))%N.
  - by intros [= <- <- <-].
  - destruct (Urllib.splitnetloc a) as [n' rest']. intros [= <- ->].
    by rewrite (IH n' eq_refl).
Qed.

Section LinkForms.
Variable netloc_valid : str -> bool.
Variable unquote_escaped : str -> str.

Local Abbreviation extract :=
(Resolver.extract_playlist_id netloc_valid unquote_escaped).

(** What [urlsplit] makes of a link to the site: the path starts at the
  slash after the host, the fragment is cut off first, then the
  query. *)
Lemma urlsplit_site (t : str) :
Urllib.remove_unsafe t = t ->
netloc_valid (u "music.163.com") = true ->
Urllib.urlsplit netloc_valid (u "https://music.163.com/" ++ t)
= let hashed := default (SLASH :: t, []) (split1 HASH (SLASH :: t)) in
  let asked := default (hashed.1, []) (split1 QUESTION hashed.1) in
  Some (Urllib.mkParseResult (u "https") (u "music.163.com")
          asked.1 [] asked.2 hashed.2).
Proof.
intros Ht Hloc. unfold Urllib.urlsplit.
rewrite lstrip_c0_app by (vm_compute; (discriminate || reflexivity)).
unfold Urllib.remove_unsafe at 1. rewrite filter_app.
fold (Urllib.remove_unsafe t). rewrite Ht.
replace (filter _ (u "https://music.163.com/"))
  with (u "https://music.163.com/") by (vm_compute; reflexivity).
rewrite split_scheme_app by (vm_compute; reflexivity).
replace (Urllib.split_scheme (u "https://music.163.com/"))
  with (u "https", SLASH :: SLASH :: u "music.163.com/")
  by (vm_compute; reflexivity).
cbn [fst snd app].
change ((SLASH =? SLASH)%N && (SLASH =? SLASH)%N) with true. cbv iota.
rewrite (splitnetloc_app (u "music.163.com/") t (u "music.163.com") []
           SLASH) by (vm_compute; reflexivity).
rewrite Hloc. cbn [negb app]. cbv zeta.
unfold default, from_option, id.
destruct (split1 HASH (SLASH :: t)) as [[a b]|]; cbn [fst snd];
  match goal with
  | |- context [split1 QUESTION ?x] =>
      destruct (split1 QUESTION x) as [[p q]|]; reflexivity
  end.
Qed.


Lemma split1_app_later (c : N) (a b : str) :
split1 c a = None ->
split1 c (a ++ b)
= match split1 c b with
  | Some (x, y) => Some (a ++ x, y)
  | None => None
  end.
Proof.
intros Ha. induction a as [|h a IH];
  [cbn [app]; by destruct (split1 c b) as [[? ?]|]|].
cbn [app split1] in *. destruct (h =? c)%N; [discriminate|].
destruct (split1 c a) as [[x y]|]; [discriminate|]. rewrite IH by done.
by destruct (split1 c b) as [[? ?]|].
Qed.

Section Forms.
Variable id : str.
Hypothesis Hloc : netloc_valid (u "music.163.com") = true.
Hypothesis Hid : Forall (fun c => isdigit c = true) id.

Lemma urlparse_plain (url : str) (r : Urllib.ParseResult) :
Urllib.urlsplit netloc_valid url = Some r ->
has SEMI (Urllib.path r) = false ->
Urllib.urlparse netloc_valid url = Some r.
Proof.
intros E H. unfold Urllib.urlparse. rewrite E, H, andb_false_r.
reflexivity.
Qed.

Lemma parse_qs_id :
id <> [] ->
Urllib.parse_qs_get unquote_escaped (u "id") (u "id=" ++ id) = Some [id].
Proof.
intros Hne. unfold Urllib.parse_qs_get, Urllib.parse_qsl.
rewrite split_app_absent by (by apply digits_differ).
replace (split AMP (u "id=")) with [u "id="] by (vm_compute; reflexivity).
cbn [removelast List.last app flat_map].
replace (u "id=") with (105%N :: u "d=") by (vm_compute; reflexivity).
cbn [app]. change (105%N :: u "d=" ++ id) with ((105%N :: u "d=") ++ id).
rewrite (split1_app_found EQUALS (105%N :: u "d=") id (u "id") [])
by (vm_compute; reflexivity).
cbn [app]. destruct id as [|d ds] eqn:E; [done|]. rewrite <- E.
replace (Urllib.unquote unquote_escaped (Urllib.plus_to_space (u "id")))
with (u "id") by (vm_compute; reflexivity).
rewrite digits_plus_to_space by (by subst).
unfold Urllib.unquote. rewrite digits_has by (by subst).
rewrite app_nil_r. rewrite filter_cons_True by reflexivity.
rewrite E. reflexivity.
Qed.

End Forms.

End LinkForms.

(** The forms of input that [extract_playlist_id] tells apart, for any
    identifier made of digits: the bare identifier is returned as it is;
    a link with the identifier in the query, or in the path segment after
    the word, yields it; a link that has a query without the key [id]
    yields nothing although the path holds the identifier; and the form
    with a fragment mark, which is what the site shows in the address
    bar, yields nothing either. *)
Theorem extract_playlist_id_link_forms
    (netloc_valid : str -> bool) (unquote_escaped : str -> str) (ident : str) :
  netloc_valid (u "music.163.com") = true ->
  Forall (fun c => isdigit c = true) ident ->
  ident <> [] ->
  Resolver.extract_playlist_id netloc_valid unquote_escaped ident = Some ident
  /\ Resolver.extract_playlist_id netloc_valid unquote_escaped
       (u "https://music.163.com/playlist?id=" ++ ident) = Some ident
  /\ Resolver.extract_playlist_id netloc_valid unquote_escaped
       (u "https://music.163.com/playlist/" ++ ident) = Some ident
  /\ Resolver.extract_playlist_id netloc_valid unquote_escaped
       (u "https://music.163.com/playlist/" ++ ident ++ u "?from=share") = None
  /\ Resolver.extract_playlist_id netloc_valid unquote_escaped
       (u "https://music.163.com/#/playlist?id=" ++ ident) = None.
Proof.
  intros Hloc Hid Hne.
  assert (Hsafe : forall a b : str,
             Urllib.remove_unsafe a = a -> Urllib.remove_unsafe b = b ->
             Urllib.remove_unsafe (a ++ b) = a ++ b).
  { intros a b Ha Hb. unfold Urllib.remove_unsafe in *.
    by rewrite filter_app, Ha, Hb. }
  pose proof (digits_remove_unsafe ident Hid) as Hclean.
  split; [|split; [|split; [|split]]].
  - apply extract_playlist_id_bare, digits_no_word, Hid.
  - unfold Resolver.extract_playlist_id.
    rewrite contains_app by (vm_compute; reflexivity).
    replace (u "https://music.163.com/playlist?id=")
      with (u "https://music.163.com/" ++ u "playlist?id=")
      by (vm_compute; reflexivity).
    rewrite <- app_assoc.
    erewrite urlparse_plain;
      [| apply urlsplit_site;
         [apply Hsafe; [vm_compute; reflexivity | exact Hclean] | exact Hloc]
       |].
    + cbv zeta.
      change (SLASH :: u "playlist?id=" ++ ident)
        with ((SLASH :: u "playlist?id=") ++ ident).
      rewrite (split1_app_absent HASH) by
        (vm_compute; reflexivity) || (by apply digits_split1).
      cbn [default from_option id fst snd].
      rewrite (split1_app_found QUESTION _ ident (u "/playlist") (u "id="))
        by (vm_compute; reflexivity).
      cbn [default from_option id fst snd Urllib.query].
      rewrite parse_qs_id by done.
      replace (u "id=") with (105%N :: u "d=") by (vm_compute; reflexivity).
      reflexivity.
    + cbv zeta.
      change (SLASH :: u "playlist?id=" ++ ident)
        with ((SLASH :: u "playlist?id=") ++ ident).
      rewrite (split1_app_absent HASH) by
        (vm_compute; reflexivity) || (by apply digits_split1).
      cbn [default from_option id fst snd].
      rewrite (split1_app_found QUESTION _ ident (u "/playlist") (u "id="))
        by (vm_compute; reflexivity).
      vm_compute. reflexivity.
  - unfold Resolver.extract_playlist_id.
    rewrite contains_app by (vm_compute; reflexivity).
    replace (u "https://music.163.com/playlist/")
      with (u "https://music.163.com/" ++ u "playlist/")
      by (vm_compute; reflexivity).
    rewrite <- app_assoc.
    assert (Hhash : split1 HASH ((SLASH :: u "playlist/") ++ ident) = None).
    { apply split1_app_absent;
        [vm_compute; reflexivity | by apply digits_split1]. }
    assert (Hask : split1 QUESTION ((SLASH :: u "playlist/") ++ ident) = None).
    { apply split1_app_absent;
        [vm_compute; reflexivity | by apply digits_split1]. }
    erewrite urlparse_plain;
      [| apply urlsplit_site;
         [apply Hsafe; [vm_compute; reflexivity | exact Hclean] | exact Hloc]
       |].
    + cbv zeta.
      change (SLASH :: u "playlist/" ++ ident)
        with ((SLASH :: u "playlist/") ++ ident).
      rewrite Hhash. cbn [default from_option id fst snd].
      rewrite Hask. cbn [default from_option id fst snd Urllib.query Urllib.path].
      rewrite split_app_absent by (by apply digits_differ).
      replace (split SLASH (SLASH :: u "playlist/"))
        with [[]; u "playlist"; []] by (vm_compute; reflexivity).
      cbn [removelast List.last app]. vm_compute. reflexivity.
    + cbv zeta.
      change (SLASH :: u "playlist/" ++ ident)
        with ((SLASH :: u "playlist/") ++ ident).
      rewrite Hhash. cbn [default from_option id fst snd].
      rewrite Hask. cbn [default from_option id fst snd Urllib.path].
      unfold has. rewrite existsb_app. fold (has SEMI ident).
      rewrite digits_has by done. vm_compute. reflexivity.
  - unfold Resolver.extract_playlist_id.
    rewrite contains_app by (vm_compute; reflexivity).
    replace (u "https://music.163.com/playlist/")
      with (u "https://music.163.com/" ++ u "playlist/")
      by (vm_compute; reflexivity).
    rewrite <- app_assoc.
    assert (Hhash : split1 HASH
                      ((SLASH :: u "playlist/") ++ ident ++ u "?from=share")
                    = None).
    { apply split1_app_absent; [vm_compute; reflexivity|].
      apply split1_app_absent;
        [by apply digits_split1 | vm_compute; reflexivity]. }
    assert (Hask : split1 QUESTION
                     ((SLASH :: u "playlist/") ++ ident ++ u "?from=share")
                   = Some ((SLASH :: u "playlist/") ++ ident ++ [],
                           u "from=share")).
    { rewrite split1_app_later by (vm_compute; reflexivity).
      rewrite split1_app_later by (by apply digits_split1).
      replace (split1 QUESTION (u "?from=share"))
        with (Some (@nil N, u "from=share")) by (vm_compute; reflexivity).
      reflexivity. }
    erewrite urlparse_plain;
      [| apply urlsplit_site;
         [ apply Hsafe; [vm_compute; reflexivity|];
           apply Hsafe; [exact Hclean | vm_compute; reflexivity]
         | exact Hloc]
       |].
    + cbv zeta.
      change (SLASH :: u "playlist/" ++ ident ++ u "?from=share")
        with ((SLASH :: u "playlist/") ++ ident ++ u "?from=share").
      rewrite Hhash. cbn [default from_option id fst snd].
      rewrite Hask. cbn [default from_option id fst snd Urllib.query].
      vm_compute. reflexivity.
    + cbv zeta.
      change (SLASH :: u "playlist/" ++ ident ++ u "?from=share")
        with ((SLASH :: u "playlist/") ++ ident ++ u "?from=share").
      rewrite Hhash. cbn [default from_option id fst snd].
      rewrite Hask. cbn [default from_option id fst snd Urllib.path].
      rewrite app_nil_r.
      unfold has. rewrite existsb_app. fold (has SEMI ident).
      rewrite digits_has by done. vm_compute. reflexivity.
  - unfold Resolver.extract_playlist_id.
    rewrite contains_app by (vm_compute; reflexivity).
    replace (u "https://music.163.com/#/playlist?id=")
      with (u "https://music.163.com/" ++ u "#/playlist?id=")
      by (vm_compute; reflexivity).
    rewrite <- app_assoc.
    assert (Hhash : split1 HASH ((SLASH :: u "#/playlist?id=") ++ ident)
                    = Some ([SLASH], u "/playlist?id=" ++ ident)).
    { apply split1_app_found. vm_compute. reflexivity. }
    erewrite urlparse_plain;
      [| apply urlsplit_site;
         [apply Hsafe; [vm_compute; reflexivity | exact Hclean] | exact Hloc]
       |].
    + cbv zeta.
      change (SLASH :: u "#/playlist?id=" ++ ident)
        with ((SLASH :: u "#/playlist?id=") ++ ident).
      rewrite Hhash. cbn [default from_option id fst snd].
      vm_compute. reflexivity.
    + cbv zeta.
      change (SLASH :: u "#/playlist?id=" ++ ident)
        with ((SLASH :: u "#/playlist?id=") ++ ident).
      rewrite Hhash. cbn [default from_option id fst snd].
      vm_compute. reflexivity.
Qed.

Lemma extract_playlist_id_link_forms_witness :
  Resolver.extract_playlist_id (fun _ => true) (fun x => x) (u "24381616")
  = Some (u "24381616")
  /\ Resolver.extract_playlist_id (fun _ => true) (fun x => x)
       (u "https://music.163.com/playlist?id=" ++ u "24381616")
     = Some (u "24381616")
  /\ Resolver.extract_playlist_id (fun _ => true) (fun x => x)
       (u "https://music.163.com/playlist/" ++ u "24381616")
     = Some (u "24381616")
  /\ Resolver.extract_playlist_id (fun _ => true) (fun x => x)
       (u "https://music.163.com/playlist/" ++ u "24381616"
        ++ u "?from=share") = None
  /\ Resolver.extract_playlist_id (fun _ => true) (fun x => x)
       (u "https://music.163.com/#/playlist?id=" ++ u "24381616") = None.
Proof.
  apply (extract_playlist_id_link_forms (fun _ => true) (fun x => x)
           (u "24381616")).
  - reflexivity.
  - vm_compute. repeat constructor.
  - vm_compute. discriminate.
Defined.
